(** * tui.h: a terminal user interface library on top of curses

    A shallow embedding of [src/tui.h] and the properties its
    specification states about it.

    - C integers are [Z]; a value stored into a [short] goes through
      [to_short], the 16-bit two's complement wrap-around.  [size_t] counters
      only ever count array slots and are [nat].
    - A C pointer that may be [NULL] is a [ptr A] ([NULL] is [None]).  Owned
      objects are held by value behind their owning pointer, so the window
      tree is an inductive tree; non-owning back-references and function
      pointers are plain addresses.
    - A pointer to a pointer ([tui_window_t**]) is a [ptr (ptr A)]; a function
      that writes through it returns the new content of the slot.
    - The curses library is a state (registered colour pairs, standard
      screen, trace of the calls issued) and an environment that decides the
      status every call reports.
    - Functions run in the monad [M]: state passing over [world], with
      [None] for undefined behaviour (a read through [NULL], a read past the
      end of an array, a cast to the wrong window variant). *)

From stdpp Require Import base option list gmap.
From Stdlib Require Import ZArith Lia.

Local Open Scope Z_scope.

(** ** C data *)

Abbreviation ptr := option (only parsing).
Abbreviation NULL := (@None _) (only parsing).

(** Addresses of objects that are referred to but not owned, and of
    functions. *)
Definition address : Type := positive.

(** Conversion of an integer to [short]. *)
Definition to_short (z : Z) : Z := (z + 32768) mod 65536 - 32768.

(** ** The curses library *)

Module Curses.

Inductive status : Set := OK | ERR.

Global Instance status_eq_dec : EqDecision status.
Proof. solve_decision. Defined.

(** A [WINDOW*] handle. *)
Definition WINDOW : Type := N.

(** [COLOR_PAIR(n)], the attribute selecting colour pair [n]. *)
Inductive attr : Set := COLOR_PAIR (n : Z).

(** The calls of the library that change the terminal. *)
Inductive call : Type :=
| initscr
| noecho
| raw
| keypad (win : ptr WINDOW) (bf : bool)
| start_color
| use_default_colors
| init_pair (p f b : Z)
| endwin
| clear
| refresh
| wclear (win : WINDOW)
| wrefresh (win : WINDOW)
| delwin (win : WINDOW)
| attron (a : attr)
| attroff (a : attr).

(** Colour numbers of <curses.h>. *)
Definition COLOR_BLACK : Z := 0.
Definition COLOR_RED : Z := 1.
Definition COLOR_GREEN : Z := 2.
Definition COLOR_YELLOW : Z := 3.
Definition COLOR_BLUE : Z := 4.
Definition COLOR_MAGENTA : Z := 5.
Definition COLOR_CYAN : Z := 6.
Definition COLOR_WHITE : Z := 7.

End Curses.
Import Curses.

(** What a run can observe: the curses calls with the status each one
    reported, and the invocations of the event handlers ([level] tells the
    session, menu and window handlers apart). *)
Inductive level : Set := SessionLevel | MenuLevel | WindowLevel.

Inductive event : Type :=
| CursesCall (c : call) (r : status)
| HandlerCall (l : level) (f : address) (key : Z).

(** The state the program runs in. *)
Record world : Type := mkWorld {
  (* the environment *)
  COLS : Z;                         (* terminal width *)
  LINES : Z;                        (* terminal height *)
  colors : bool;                    (* what has_colors() answers *)
  status_of : call → status;        (* the status each call reports *)
  mem_avail : nat;                  (* allocations malloc will still grant *)
  (* the library *)
  stdscr : ptr WINDOW;              (* NULL until initscr() *)
  visual : bool;                    (* the terminal driver is running *)
  pairs : gmap Z (Z * Z);           (* the registered colour pairs *)
  (* the observations so far, oldest first *)
  trace : list event
}.

Definition set_trace (s : world) (t : list event) : world :=
  mkWorld (COLS s) (LINES s) (colors s) (status_of s) (mem_avail s)
          (stdscr s) (visual s) (pairs s) t.

Definition set_pairs (s : world) (p : gmap Z (Z * Z)) : world :=
  mkWorld (COLS s) (LINES s) (colors s) (status_of s) (mem_avail s)
          (stdscr s) (visual s) p (trace s).

Definition set_screen (s : world) (scr : ptr WINDOW) (v : bool) : world :=
  mkWorld (COLS s) (LINES s) (colors s) (status_of s) (mem_avail s)
          scr v (pairs s) (trace s).

Definition set_mem_avail (s : world) (n : nat) : world :=
  mkWorld (COLS s) (LINES s) (colors s) (status_of s) n
          (stdscr s) (visual s) (pairs s) (trace s).

(** ** The monad *)

Definition M (A : Type) : Type := world → option (A * world).

Global Instance M_ret : MRet M := λ A a s, Some (a, s).
Global Instance M_bind : MBind M := λ A B f m s,
  match m s with
  | Some (a, s') => f a s'
  | None => None
  end.

Global Instance M_fmap : FMap M := λ A B f m s,
  match m s with
  | Some (a, s') => Some (f a, s')
  | None => None
  end.

(** Undefined behaviour. *)
Definition UB {A : Type} : M A := λ _, None.

(** [a[i]]. *)
Definition at_index {A : Type} (a : list A) (i : nat) : M A :=
  match a !! i with
  | Some x => mret x
  | None => UB
  end.

(** [for (size_t index = start; index < start + steps; index++) body]. *)
Fixpoint for_loop (body : nat → M unit) (start steps : nat) : M unit :=
  match steps with
  | O => mret ()
  | S steps' => body start ≫= λ _, for_loop body (S start) steps'
  end.

Definition for_range (count : nat) (body : nat → M unit) : M unit :=
  for_loop body 0 count.

(** *** Calls into curses *)

(** The effect of a call that succeeded. *)
Definition effect (c : call) (s : world) : world :=
  match c with
  | initscr => set_screen s (Some 0%N) true
  | endwin => set_screen s (stdscr s) false
  | init_pair p f b => set_pairs s (<[p := (f, b)]> (pairs s))
  | _ => s
  end.

(** A call reports the status the environment decides, takes effect when
    that status is [OK], and is recorded either way. *)
Definition curses (c : call) : M status := λ s,
  let r := status_of s c in
  let s' := match r with OK => effect c s | ERR => s end in
  Some (r, set_trace s' (trace s' ++ [CursesCall c r])).

(** Queries: they change nothing. *)
Definition has_colors : M bool := λ s, Some (colors s, s).

(** [pair_content(p, &f, &b)]: the content of a registered pair, [None]
    for [ERR].  The world holds the pairs an [init_pair] has set and the
    error is reported for every other index, as curses does for an index
    outside its table of pairs; for an index inside the table that was never
    set curses answers with the colours the table was made with instead.
    What is proved of the colour functions therefore names the answer it is
    about: a pair that is held, or the error. *)
Definition pair_content (p : Z) : M (option (Z * Z)) :=
  λ s, Some (pairs s !! p, s).

(** The global [stdscr]. *)
Definition get_stdscr : M (ptr WINDOW) := λ s, Some (stdscr s, s).

(** The macros [getmaxx(stdscr)] and [getmaxy(stdscr)]: [ERR] (-1) for a
    [NULL] window. *)
Definition getmaxx_stdscr : M Z :=
  λ s, Some (match stdscr s with Some _ => COLS s | None => -1 end, s).
Definition getmaxy_stdscr : M Z :=
  λ s, Some (match stdscr s with Some _ => LINES s | None => -1 end, s).

(** [malloc]: [true] when the block was granted. *)
Definition malloc : M bool := λ s,
  match mem_avail s with
  | O => Some (false, s)
  | S n => Some (true, set_mem_avail s n)
  end.

(** ** Colors *)

Inductive tui_color_t : Set :=
| TUI_COLOR_NONE
| TUI_COLOR_BLACK
| TUI_COLOR_RED
| TUI_COLOR_GREEN
| TUI_COLOR_YELLOW
| TUI_COLOR_BLUE
| TUI_COLOR_MAGENTA
| TUI_COLOR_CYAN
| TUI_COLOR_WHITE.

Global Instance tui_color_eq_dec : EqDecision tui_color_t.
Proof. solve_decision. Defined.

(** The value of an enumerator. *)
Definition color_ord (c : tui_color_t) : Z :=
  match c with
  | TUI_COLOR_NONE => 0
  | TUI_COLOR_BLACK => 1
  | TUI_COLOR_RED => 2
  | TUI_COLOR_GREEN => 3
  | TUI_COLOR_YELLOW => 4
  | TUI_COLOR_BLUE => 5
  | TUI_COLOR_MAGENTA => 6
  | TUI_COLOR_CYAN => 7
  | TUI_COLOR_WHITE => 8
  end.

Definition all_colors : list tui_color_t :=
  [TUI_COLOR_NONE; TUI_COLOR_BLACK; TUI_COLOR_RED; TUI_COLOR_GREEN;
   TUI_COLOR_YELLOW; TUI_COLOR_BLUE; TUI_COLOR_MAGENTA; TUI_COLOR_CYAN;
   TUI_COLOR_WHITE].

Definition TUI_COLORS : list Z :=
  [-1; COLOR_BLACK; COLOR_RED; COLOR_GREEN; COLOR_YELLOW; COLOR_BLUE;
   COLOR_MAGENTA; COLOR_CYAN; COLOR_WHITE].

(** ** Structs *)

Inductive tui_window_type_t : Set :=
| TUI_WINDOW_PARENT
| TUI_WINDOW_TEXT
| TUI_WINDOW_INPUT.

Global Instance tui_window_type_eq_dec : EqDecision tui_window_type_t.
Proof. solve_decision. Defined.

Record tui_rect_t : Set :=
  mkRect { rect_w : Z; rect_h : Z; rect_x : Z; rect_y : Z }.

Record tui_border_t : Set :=
  mkBorder { border_fg_color : tui_color_t; border_bg_color : tui_color_t }.

Inductive tui_parent_type_t : Set :=
| TUI_PARENT_TUI
| TUI_PARENT_MENU
| TUI_PARENT_WINDOW.

Inductive tui_pos_t : Set := TUI_POS_START | TUI_POS_CENTER | TUI_POS_END.

Inductive tui_align_t : Set :=
| TUI_ALIGN_START
| TUI_ALIGN_CENTER
| TUI_ALIGN_END
| TUI_ALIGN_BETWEEN
| TUI_ALIGN_AROUND
| TUI_ALIGN_EVENLY.

(** [struct tui_window_t], the header every window starts with. *)
Module Head.
Record t : Type := mk {
  type : tui_window_type_t;
  name : ptr String.string;
  is_visable : bool;
  is_interact : bool;
  is_locked : bool;
  rect : tui_rect_t;
  window : ptr WINDOW;
  fg_color : tui_color_t;
  bg_color : tui_color_t;
  border : ptr tui_border_t;
  event : ptr address;
  parent_type : tui_parent_type_t;
  parent : ptr address;
  tui : ptr address
}.
End Head.

Module Input.
Record t : Type := mk {
  head : Head.t;
  buffer : ptr String.string;
  buffer_size : nat;
  buffer_len : nat;
  cursor : nat;
  scroll : nat;
  is_secret : bool;
  is_hidden : bool;
  pos : tui_pos_t
}.
End Input.
Abbreviation tui_window_input_t := Input.t.

Module Text.
Record t : Type := mk {
  head : Head.t;
  string : ptr String.string;
  text : ptr String.string;
  pos : tui_pos_t;
  align : tui_align_t
}.
End Text.
Abbreviation tui_window_text_t := Text.t.

(** [W] is what a [tui_window_t*] of the [children] array points to. *)
Module Parent.
Record t (W : Type) : Type := mk {
  head : Head.t;
  children : ptr (list (ptr W));
  child_count : nat;
  is_vertical : bool;
  pos : tui_pos_t;
  align : tui_align_t
}.
Global Arguments mk {W}.
Global Arguments head {W}.
Global Arguments children {W}.
Global Arguments child_count {W}.
Global Arguments is_vertical {W}.
Global Arguments pos {W}.
Global Arguments align {W}.
End Parent.
Abbreviation tui_window_parent_t := Parent.t.

(** The object behind a [tui_window_t*]: one of the three structs that start
    with the header. *)
#[warnings="-register-all"]
Inductive tui_window_t : Type :=
| ParentWindow (p : tui_window_parent_t tui_window_t)
| TextWindow (t : tui_window_text_t)
| InputWindow (i : tui_window_input_t).

(** Reading the header through a [tui_window_t*]. *)
Definition head_of (w : tui_window_t) : Head.t :=
  match w with
  | ParentWindow p => Parent.head p
  | TextWindow t => Text.head t
  | InputWindow i => Input.head i
  end.

Module Menu.
Record t : Type := mk {
  name : ptr String.string;
  windows : ptr (list (ptr tui_window_t));
  window_count : nat;
  event : ptr address;
  tui : ptr address
}.
End Menu.
Abbreviation tui_menu_t := Menu.t.

Module Tui.
Record t : Type := mk {
  w : Z;
  h : Z;
  menus : ptr (list (ptr tui_menu_t));
  menu_count : nat;
  windows : ptr (list (ptr tui_window_t));
  window_count : nat;
  tab_windows : ptr (list (ptr address));
  tab_window_count : nat;
  menu : ptr address;
  window : ptr address;
  color : Z;
  event : ptr address;
  is_running : bool
}.

(** [tui->color = c]. *)
Definition set_color (tui : t) (c : Z) : t :=
  mk (w tui) (h tui) (menus tui) (menu_count tui) (windows tui)
     (window_count tui) (tab_windows tui) (tab_window_count tui) (menu tui)
     (window tui) c (event tui) (is_running tui).
End Tui.
Abbreviation tui_t := Tui.t.

(** ** Keys *)

Definition KEY_CTRLC : Z := 3.
Definition KEY_CTRLZ : Z := 26.
Definition KEY_ESC : Z := 27.
Definition KEY_CTRLS : Z := 19.
Definition KEY_CTRLH : Z := 8.
Definition KEY_CTRLD : Z := 4.
Definition KEY_ENTR : Z := 10.
Definition KEY_TAB : Z := 9.

(** ** The color functions *)

(** [fg * 9 + bg], the colour pair of two colour values. *)
Definition color_pair (fg bg : Z) : Z := fg * 9 + bg.

(** The substitution both colour functions start with: a transparent colour
    becomes the matching component of the pair [tui->color], when curses
    knows that pair. *)
Definition last_color (last : option (Z * Z)) (fg bg : Z) : Z * Z :=
  match last with
  | Some (last_fg, last_bg) =>
      (if decide (fg = color_ord TUI_COLOR_NONE) then last_fg + 1 else fg,
       if decide (bg = color_ord TUI_COLOR_NONE) then last_bg + 1 else bg)
  | None => (fg, bg)
  end.

Definition tui_color_on (tui : tui_t) (fg bg : tui_color_t) : M tui_t :=
  last ← pair_content (Tui.color tui);
  let '(fg, bg) := last_color last (color_ord fg) (color_ord bg) in
  let color := to_short (color_pair fg bg) in
  let tui := Tui.set_color tui color in
  _ ← curses (attron (COLOR_PAIR color));
  mret tui.

Definition tui_color_off (tui : tui_t) (fg bg : tui_color_t) : M tui_t :=
  last ← pair_content (Tui.color tui);
  let '(fg, bg) := last_color last (color_ord fg) (color_ord bg) in
  _ ← curses (attroff (COLOR_PAIR (color_pair fg bg)));
  mret tui.

Definition tui_colors_init : M unit :=
  for_range 9 (λ fg_index,
    for_range 9 (λ bg_index,
      let index := (fg_index * 9 + bg_index)%nat in
      fg_color ← at_index TUI_COLORS fg_index;
      bg_color ← at_index TUI_COLORS bg_index;
      _ ← curses (init_pair (to_short (Z.of_nat index)) fg_color bg_color);
      mret ())).

(** ** Starting and stopping curses *)

Definition tui_init : M Z :=
  _ ← curses initscr;
  _ ← curses noecho;
  _ ← curses raw;
  scr ← get_stdscr;
  _ ← curses (keypad scr true);
  started ← curses start_color;
  no_color ← (if decide (started = ERR) then mret true
              else negb <$> has_colors);
  if no_color : bool then
    _ ← curses endwin;
    mret 1
  else
    _ ← curses use_default_colors;
    _ ← tui_colors_init;
    _ ← curses clear;
    _ ← curses refresh;
    mret 0.

Definition tui_quit : M unit :=
  _ ← curses clear;
  _ ← curses refresh;
  _ ← curses endwin;
  mret ().

(** ** Windows and the session *)

(** [*p]. *)
Definition deref {A : Type} (p : ptr A) : M A :=
  match p with
  | Some a => mret a
  | None => UB
  end.

Definition tui_ncurses_window_free (window : ptr (ptr WINDOW))
  : M (ptr (ptr WINDOW)) :=
  match window with
  | None => mret window
  | Some None => mret window
  | Some (Some win) =>
      _ ← curses (wclear win);
      _ ← curses (wrefresh win);
      _ ← curses (delwin win);
      mret (Some NULL)
  end.

Definition tui_create (event : ptr address) : M (ptr tui_t) :=
  granted ← malloc;
  if granted : bool then
    w ← getmaxx_stdscr;
    h ← getmaxy_stdscr;
    mret (Some (Tui.mk w h NULL 0 NULL 0 NULL 0 NULL NULL 0 event false))
  else
    mret NULL.

(** [free] returns a block to the allocator; the object is dropped with the
    value that held it. *)
Definition free {A : Type} (p : ptr A) : M unit := mret ().

(** The loop that frees the objects of an array of pointers, as
    [tui_windows_free] and [tui_delete] have it. *)
Section slots.
Context {T : Type}.

(** The function called on [&array[index]]. *)
Variable slot_free : ptr (ptr T) → M (ptr (ptr T)).

(** [for (index = ...; index < count; index++) slot_free(&array[index])],
    [slots] being the array from the slot [index] on and [passes] the
    number of passes left.  It returns the slots as the passes leave
    them.  The recursion follows the slots, which lets the destructor of a
    window go through the arrays of its tree; [free_loop_indexed] below is
    the loop with the index, and the two agree ([free_loop_indexed_eq]). *)
Fixpoint free_loop (slots : list (ptr T)) (passes : nat) {struct slots}
  : M (list (ptr T)) :=
  match passes with
  | O => mret slots
  | S passes' =>
      match slots with
      | [] => UB
      | slot :: rest =>
          slot' ← slot_free (Some slot) ≫= deref;
          rest' ← free_loop rest passes';
          mret (slot' :: rest')
      end
  end.

(** The same loop the way it is written: [array[index]] is read, freed and
    left [NULL], and the index moves on. *)
Fixpoint free_loop_indexed (array : list (ptr T)) (index passes : nat)
  : M (list (ptr T)) :=
  match passes with
  | O => mret array
  | S passes' =>
      slot ← at_index array index;
      slot' ← slot_free (Some slot) ≫= deref;
      free_loop_indexed (<[index := slot']> array) (S index) passes'
  end.

(** The loop over the array behind [array], from slot 0.  With a [NULL]
    array [&array[0]] is the [NULL] pointer, which [slot_free] is called
    on; [&array[1]] is not [NULL], and the second pass reads through it. *)
Definition free_all (array : ptr (list (ptr T))) (count : nat)
  : M (ptr (list (ptr T))) :=
  match count with
  | O => mret array
  | S passes =>
      match array with
      | None =>
          _ ← slot_free NULL;
          match passes with
          | O => mret array
          | S _ => UB
          end
      | Some slots => Some <$> free_loop slots count
      end
  end.
End slots.

(** The destructors of a window call each other in a cycle
    ([tui_window_free], [tui_window_parent_free], [tui_windows_free]).  The
    cycle is cut at [tui_window_free]: the functions of this section take it
    as [window_free], and it is put back below. *)
Section windows_free.
Context {W : Type}.
Variable window_free : ptr (ptr W) → M (ptr (ptr W)).

(** [windows] and [count] are the contents of [*windows] and [*count];
    the result is what the function leaves there. *)
Definition tui_windows_free_with (windows : ptr (list (ptr W))) (count : nat)
  : M (ptr (list (ptr W)) * nat) :=
  windows ← free_all window_free windows count;
  _ ← free windows;
  mret (NULL, 0%nat).

Definition tui_window_parent_free_with
    (window : ptr (ptr (tui_window_parent_t W)))
  : M (ptr (ptr (tui_window_parent_t W))) :=
  p ← deref window ≫= deref;
  _ ← tui_windows_free_with (Parent.children p) (Parent.child_count p);
  _ ← tui_ncurses_window_free (Some (Head.window (Parent.head p)));
  _ ← free (Some p);
  mret (Some NULL).
End windows_free.

Definition tui_window_text_free (window : ptr (ptr tui_window_text_t))
  : M (ptr (ptr tui_window_text_t)) :=
  t ← deref window ≫= deref;
  _ ← tui_ncurses_window_free (Some (Head.window (Text.head t)));
  _ ← free (Text.text t);
  _ ← free (Some t);
  mret (Some NULL).

Definition tui_window_input_free (window : ptr (ptr tui_window_input_t))
  : M (ptr (ptr tui_window_input_t)) :=
  i ← deref window ≫= deref;
  _ ← tui_ncurses_window_free (Some (Head.window (Input.head i)));
  _ ← free (Some i);
  mret (Some NULL).

(** The casts of [tui_window_free]: a [tui_window_t*] is read as a pointer
    to the struct it is the header of, and no other. *)
Definition as_parent (w : tui_window_t)
  : M (tui_window_parent_t tui_window_t) :=
  match w with ParentWindow p => mret p | _ => UB end.
Definition as_text (w : tui_window_t) : M tui_window_text_t :=
  match w with TextWindow t => mret t | _ => UB end.
Definition as_input (w : tui_window_t) : M tui_window_input_t :=
  match w with InputWindow i => mret i | _ => UB end.

(** [tui_window_free], given what its [switch] does for the window [*window]
    and leaves in [*window]. *)
Definition tui_window_free_with (switch : tui_window_t → M (ptr tui_window_t))
    (window : ptr (ptr tui_window_t)) : M (ptr (ptr tui_window_t)) :=
  match window with
  | None => mret window
  | Some None => mret window
  | Some (Some w) => Some <$> switch w
  end.

(** The [switch] of [tui_window_free] on a window [w = *window].  The three
    enumerators are all the values of the type, so [default] has no case. *)
Fixpoint tui_window_free_switch (w : tui_window_t) {struct w}
  : M (ptr tui_window_t) :=
  match Head.type (head_of w) with
  | TUI_WINDOW_PARENT =>
      match w with
      | ParentWindow p =>
          r ← tui_window_parent_free_with
                (tui_window_free_with tui_window_free_switch) (Some (Some p));
          fmap (M := option) ParentWindow <$> deref r
      | _ => UB
      end
  | TUI_WINDOW_TEXT =>
      t ← as_text w;
      r ← tui_window_text_free (Some (Some t));
      fmap (M := option) TextWindow <$> deref r
  | TUI_WINDOW_INPUT =>
      i ← as_input w;
      r ← tui_window_input_free (Some (Some i));
      fmap (M := option) InputWindow <$> deref r
  end.

Definition tui_window_free
  : ptr (ptr tui_window_t) → M (ptr (ptr tui_window_t)) :=
  tui_window_free_with tui_window_free_switch.

Definition tui_window_parent_free
  : ptr (ptr (tui_window_parent_t tui_window_t))
    → M (ptr (ptr (tui_window_parent_t tui_window_t))) :=
  tui_window_parent_free_with tui_window_free.

Definition tui_windows_free
  : ptr (list (ptr tui_window_t)) → nat
    → M (ptr (list (ptr tui_window_t)) * nat) :=
  tui_windows_free_with tui_window_free.

Definition tui_menu_free (menu : ptr (ptr tui_menu_t))
  : M (ptr (ptr tui_menu_t)) :=
  match menu with
  | None => mret menu
  | Some None => mret menu
  | Some (Some m) =>
      _ ← tui_windows_free (Menu.windows m) (Menu.window_count m);
      _ ← free (Some m);
      mret (Some NULL)
  end.

Definition tui_delete (tui : ptr (ptr tui_t)) : M (ptr (ptr tui_t)) :=
  match tui with
  | None => mret tui
  | Some None => mret tui
  | Some (Some t) =>
      menus ← free_all tui_menu_free (Tui.menus t) (Tui.menu_count t);
      _ ← free menus;
      _ ← tui_windows_free (Tui.windows t) (Tui.window_count t);
      _ ← free (Tui.tab_windows t);
      _ ← free (Some t);
      mret (Some NULL)
  end.

(** ** Events *)

(** The body of [tui_event] is empty. *)
Definition tui_event (tui : tui_t) (key : Z) : M tui_t := mret tui.

(** ** What the specification speaks about *)

(** *** Traces *)

(** The events of a list of calls in the world [s]. *)
Definition events_of (s : world) (calls : list call) : list event :=
  map (λ c, CursesCall c (status_of s c)) calls.

(** The world after calls that only draw: they are recorded and nothing else
    changes. *)
Definition record (s : world) (calls : list call) : world :=
  set_trace s (trace s ++ events_of s calls).

(** A call is passive when it leaves the state of the library alone. *)
Definition passive (c : call) : bool :=
  match c with
  | initscr | endwin | init_pair _ _ _ => false
  | _ => true
  end.

(** One call, and a sequence of calls. *)
Definition step (c : call) (s : world) : world :=
  match curses c s with
  | Some (_, s') => s'
  | None => s
  end.

Definition run_calls (calls : list call) (s : world) : world :=
  foldl (λ s c, step c s) s calls.

(** The curses calls of a trace, the surfaces it deletes and the handlers it
    invokes, in order. *)
Definition calls_of (evs : list event) : list call :=
  omap (λ e, match e with CursesCall c _ => Some c | _ => None end) evs.

Definition deleted (evs : list event) : list WINDOW :=
  omap (λ e, match e with
             | CursesCall (delwin win) _ => Some win
             | _ => None
             end)
       evs.

Definition handlers_of (evs : list event) : list (level * address * Z) :=
  omap (λ e, match e with
             | HandlerCall l f key => Some (l, f, key)
             | _ => None
             end)
       evs.

(** *** Colour pairs *)

Definition curses_color (c : tui_color_t) : Z :=
  default 0 (TUI_COLORS !! Z.to_nat (color_ord c)).

(** The pair index of two colours. *)
Definition resolve (fg bg : tui_color_t) : Z :=
  color_pair (color_ord fg) (color_ord bg).

(** The registrations in index order. *)
Definition registrations : list (Z * (Z * Z)) :=
  flat_map (λ fg,
              map (λ bg, (resolve fg bg, (curses_color fg, curses_color bg)))
                  all_colors)
           all_colors.

Definition registration_calls : list call :=
  map (λ r, init_pair r.1 r.2.1 r.2.2) registrations.

(** Curses holds the 81 pairs the way [tui_colors_init] registers them. *)
Definition colors_registered (s : world) : bool :=
  forallb (λ r, bool_decide (pairs s !! r.1 = Some r.2)) registrations.

(** A transparent colour stands for the colour below it. *)
Definition inherit (c last : tui_color_t) : tui_color_t :=
  if decide (c = TUI_COLOR_NONE) then last else c.

(** *** Window trees *)

Section arrays.
Context {T : Type}.
Variable ok : T → bool.

(** An array pointer and its count agree, and the objects in the slots
    are [ok]. *)
Definition array_ok (array : ptr (list (ptr T))) (count : nat) : bool :=
  match array with
  | None => bool_decide (count = 0%nat)
  | Some slots =>
      bool_decide (length slots = count)
      && forallb (λ slot, match slot with Some x => ok x | None => true end)
                 slots
  end.
End arrays.

(** The type tag of every window says which struct it is the header of, and
    every array has the length its count says. *)
Fixpoint well_formed (w : tui_window_t) : bool :=
  match w with
  | ParentWindow p =>
      bool_decide (Head.type (Parent.head p) = TUI_WINDOW_PARENT)
      && array_ok well_formed (Parent.children p) (Parent.child_count p)
  | TextWindow t => bool_decide (Head.type (Text.head t) = TUI_WINDOW_TEXT)
  | InputWindow i => bool_decide (Head.type (Input.head i) = TUI_WINDOW_INPUT)
  end.

Definition menu_well_formed (m : tui_menu_t) : bool :=
  array_ok well_formed (Menu.windows m) (Menu.window_count m).

Definition tui_well_formed (t : tui_t) : bool :=
  array_ok menu_well_formed (Tui.menus t) (Tui.menu_count t)
  && array_ok well_formed (Tui.windows t) (Tui.window_count t).

(** The windows in the slots of an array. *)
Definition slots_of {T : Type} (array : ptr (list (ptr T))) : list T :=
  flat_map (λ slot, match slot with Some x => [x] | None => [] end)
           (default [] array).

(** The nodes of a window tree in post-order: the subtrees of the children
    from the first to the last, then the node. *)
Fixpoint postorder (w : tui_window_t) : list tui_window_t :=
  match w with
  | ParentWindow p =>
      match Parent.children p with
      | Some slots =>
          flat_map (λ slot, match slot with
                            | Some c => postorder c
                            | None => []
                            end)
                   slots
      | None => []
      end ++ [w]
  | _ => [w]
  end.

(** The native surface of a node. *)
Definition surface (w : tui_window_t) : ptr WINDOW := Head.window (head_of w).

(** Every node of the tree has its surface. *)
Definition has_surfaces (w : tui_window_t) : bool :=
  forallb (λ n, bool_decide (is_Some (surface n))) (postorder w).

(** The calls that destroy one surface. *)
Definition surface_calls (win : ptr WINDOW) : list call :=
  match win with
  | Some win => [wclear win; wrefresh win; delwin win]
  | None => []
  end.

(** The calls that tear a tree down, a list of trees, a menu, a session. *)
Definition teardown_calls (w : tui_window_t) : list call :=
  flat_map (λ n, surface_calls (surface n)) (postorder w).

Definition windows_teardown_calls (ws : list tui_window_t) : list call :=
  flat_map teardown_calls ws.

Definition menu_teardown_calls (m : tui_menu_t) : list call :=
  windows_teardown_calls (slots_of (Menu.windows m)).

Definition tui_teardown_calls (t : tui_t) : list call :=
  flat_map menu_teardown_calls (slots_of (Tui.menus t))
  ++ windows_teardown_calls (slots_of (Tui.windows t)).

(** What a destructor leaves in its argument: a pointer to [NULL], unless
    the argument itself is [NULL]. *)
Definition nulled {A : Type} (p : ptr (ptr A)) : ptr (ptr A) :=
  match p with
  | Some _ => Some NULL
  | None => None
  end.

(** The object behind a pointer to a pointer, if there is one. *)
Definition pointee {A : Type} (p : ptr (ptr A)) : list A :=
  match p with
  | Some (Some a) => [a]
  | _ => []
  end.

(** *** Sessions *)

(** The states of a session: it is made by [tui_create] once the colours
    are registered, and from then on it goes through the colour functions
    and [tui_event]. *)
Inductive session_state : tui_t → world → Prop :=
| session_created (event : ptr address) (s s' : world) (tui : tui_t) :
    colors_registered s = true →
    tui_create event s = Some (Some tui, s') →
    session_state tui s'
| session_color_on (tui tui' : tui_t) (s s' : world) (fg bg : tui_color_t) :
    session_state tui s →
    tui_color_on tui fg bg s = Some (tui', s') →
    session_state tui' s'
| session_color_off (tui tui' : tui_t) (s s' : world) (fg bg : tui_color_t) :
    session_state tui s →
    tui_color_off tui fg bg s = Some (tui', s') →
    session_state tui' s'
| session_event (tui tui' : tui_t) (s s' : world) (key : Z) :
    session_state tui s →
    tui_event tui key s = Some (tui', s') →
    session_state tui' s'.

(** *** Focus *)

(** The tab-focus view of a session: its first [tab_window_count] entries. *)
Definition tab_view (t : tui_t) : list (ptr address) :=
  take (Tui.tab_window_count t) (default [] (Tui.tab_windows t)).

(** The specification's step for the TAB key: the entry after the active
    window in the view, the first one after the last. *)
Definition spec_tab_next (t : tui_t) : ptr address :=
  match list_find (λ e, e = Tui.window t) (tab_view t) with
  | Some (i, _) =>
      default (Tui.window t)
              (tab_view t !! ((i + 1) mod length (tab_view t))%nat)
  | None => Tui.window t
  end.

(** *** Start-up *)

(** [tui_init] finds no colours: [start_color()] reports an error or
    [has_colors()] is false. *)
Definition no_color (s : world) : bool :=
  bool_decide (status_of s start_color = ERR) || negb (colors s).

(** The calls of [tui_init] in the world [s]. *)
Definition tui_init_calls (s : world) : list call :=
  [initscr; noecho; raw; keypad (stdscr (step initscr s)) true; start_color]
  ++ (if no_color s then [endwin]
      else [use_default_colors] ++ registration_calls ++ [clear; refresh]).

(** The registrations of a trace, in order. *)
Definition init_pairs_of (evs : list event) : list (Z * (Z * Z)) :=
  omap (λ c, match c with init_pair p f b => Some (p, (f, b)) | _ => None end)
       (calls_of evs).

(** ** Examples of worlds, sessions and windows *)

(** An 80x24 colour terminal where every call succeeds. *)
Definition terminal : world :=
  mkWorld 80 24 true (λ _, OK) 1 NULL false ∅ [].

(** The same terminal without colours. *)
Definition mono_terminal : world :=
  mkWorld 80 24 false (λ _, OK) 1 NULL false ∅ [].

(** A colour terminal on which [init_pair] reports an error for a pair from
    64 on. *)
Definition small_terminal : world :=
  mkWorld 80 24 true
          (λ c, match c with
                | init_pair p _ _ => if decide (p < 64) then OK else ERR
                | _ => OK
                end)
          1 NULL false ∅ [].

(** A terminal on which clearing and deleting a window fail. *)
Definition stubborn_terminal : world :=
  mkWorld 80 24 true
          (λ c, match c with wclear _ | delwin _ => ERR | _ => OK end)
          1 (Some 0%N) true ∅ [].

(** [terminal] after [tui_init]. *)
Definition started_terminal : world :=
  match tui_init terminal with
  | Some (_, s) => s
  | None => terminal
  end.

(** A header with the surface [win] and the handler at the address 22. *)
Definition example_head (type : tui_window_type_t) (win : N) : Head.t :=
  Head.mk type NULL true false false (mkRect 10 1 0 0) (Some win)
          TUI_COLOR_NONE TUI_COLOR_NONE NULL (Some 22%positive)
          TUI_PARENT_TUI NULL NULL.

Definition example_text (win : N) : tui_window_t :=
  TextWindow (Text.mk (example_head TUI_WINDOW_TEXT win) NULL NULL
                      TUI_POS_START TUI_ALIGN_START).

Definition example_input (win : N) : tui_window_t :=
  InputWindow (Input.mk (example_head TUI_WINDOW_INPUT win) NULL 0 0 0 0
                        false false TUI_POS_START).

Definition example_parent (win : N) (children : list (ptr tui_window_t))
  : tui_window_t :=
  ParentWindow (Parent.mk (example_head TUI_WINDOW_PARENT win)
                          (Some children) (length children) false
                          TUI_POS_START TUI_ALIGN_START).

(** A container (surface 1) with a text window (2), an emptied slot, and a
    container (3) with an input window (4) and a text window (5). *)
Definition example_container : tui_window_parent_t tui_window_t :=
  Parent.mk (example_head TUI_WINDOW_PARENT 1)
            (Some [Some (example_text 2); NULL;
                   Some (example_parent 3 [Some (example_input 4);
                                           Some (example_text 5)])])
            3 false TUI_POS_START TUI_ALIGN_START.

Definition example_tree : tui_window_t := ParentWindow example_container.

(** A menu with the handler at the address 21. *)
Definition example_menu : tui_menu_t :=
  Menu.mk NULL (Some [Some example_tree; Some (example_input 6)]) 2
          (Some 21%positive) NULL.

(** A running session with the handler at the address 20, one menu (at the
    address 10, active), one top-level window, the two windows at the
    addresses 11 and 12 in its focus view and the first of them active. *)
Definition example_tui : tui_t :=
  Tui.mk 80 24 (Some [Some example_menu]) 1 (Some [Some (example_text 7)]) 1
         (Some [Some 11%positive; Some 12%positive]) 2
         (Some 10%positive) (Some 11%positive) 0 (Some 20%positive) true.

(** ** Surfaces *)

(** The functions that make and place a surface use three calls curses
    answers with a result of its own: [newwin], which returns the new
    window or [NULL], and [wresize] and [mvwin], which report a status.  A
    [screen] is the world together with the windows curses holds, each
    with its size and its place, and with what curses answers to these
    calls. *)
Inductive window_call : Type :=
| wresize (win : ptr WINDOW) (lines columns : Z)
| mvwin (win : ptr WINDOW) (y x : Z).

Record screen : Type := mkScreen {
  under : world;
  (* what newwin(nlines, ncols, begin_y, begin_x) returns *)
  newwin_result : Z → Z → Z → Z → ptr WINDOW;
  (* the status wresize and mvwin report *)
  window_status : window_call → status;
  (* the windows newwin has made *)
  geometry : gmap WINDOW tui_rect_t
}.

Definition set_under (sc : screen) (s : world) : screen :=
  mkScreen s (newwin_result sc) (window_status sc) (geometry sc).

Definition set_geometry (sc : screen) (g : gmap WINDOW tui_rect_t) : screen :=
  mkScreen (under sc) (newwin_result sc) (window_status sc) g.

Definition Scr (A : Type) : Type := screen → option (A * screen).

Global Instance Scr_ret : MRet Scr := λ A a sc, Some (a, sc).
Global Instance Scr_bind : MBind Scr := λ A B f m sc,
  match m sc with
  | Some (a, sc') => f a sc'
  | None => None
  end.

(** A function of the world, run on the world of the screen. *)
Definition in_world {A : Type} (m : M A) : Scr A := λ sc,
  match m (under sc) with
  | Some (a, s') => Some (a, set_under sc s')
  | None => None
  end.

(** A size given to [newwin]: 0 stands for what is left of the screen from
    the corner of the window on. *)
Definition to_edge (size extent start : Z) : Z :=
  if decide (size = 0) then extent - start else size.

(** [newwin(nlines, ncols, begin_y, begin_x)]: the window it returns has its
    top left corner in the column [begin_x] of the line [begin_y], and
    [ncols] columns and [nlines] lines; for [ncols] 0 it has the
    [COLS - begin_x] columns up to the right edge of the screen, and for
    [nlines] 0 the [LINES - begin_y] lines down to its last line. *)
Definition newwin (nlines ncols begin_y begin_x : Z) : Scr (ptr WINDOW) :=
  λ sc,
    let r := newwin_result sc nlines ncols begin_y begin_x in
    Some (r, match r with
             | Some win =>
                 set_geometry sc
                   (<[win := mkRect (to_edge ncols (COLS (under sc)) begin_x)
                                    (to_edge nlines (LINES (under sc)) begin_y)
                                    begin_x begin_y]>
                      (geometry sc))
             | None => sc
             end).

(** The effect of [wresize(win, lines, columns)] and of [mvwin(win, y, x)]
    when they succeed. *)
Definition window_effect (c : window_call) (g : gmap WINDOW tui_rect_t)
  : gmap WINDOW tui_rect_t :=
  match c with
  | wresize (Some win) lines columns =>
      alter (λ r, mkRect columns lines (rect_x r) (rect_y r)) win g
  | mvwin (Some win) y x =>
      alter (λ r, mkRect (rect_w r) (rect_h r) x y) win g
  | _ => g
  end.

(** Both calls report [ERR] for a [NULL] window, and otherwise the status
    curses decides; they take effect when that status is [OK]. *)
Definition window_curses (c : window_call) : Scr status := λ sc,
  let r := match c with
           | wresize None _ _ | mvwin None _ _ => ERR
           | _ => window_status sc c
           end in
  Some (r, match r with
           | OK => set_geometry sc (window_effect c (geometry sc))
           | ERR => sc
           end).

Definition tui_ncurses_window_create (w h x y : Z) : Scr (ptr WINDOW) :=
  window ← newwin h w y x;
  match window with
  | None => mret NULL
  | Some win =>
      _ ← in_world (curses (keypad (Some win) true));
      mret window
  end.

Definition tui_ncurses_window_resize (window : ptr WINDOW) (w h x y : Z)
  : Scr unit :=
  _ ← window_curses (wresize window h w);
  _ ← window_curses (mvwin window y x);
  mret ().

(** ** More of what the code is used for *)

(** Every pair curses holds is one of the 81 registrations. *)
Definition pairs_sound (s : world) : bool :=
  forallb (λ r, bool_decide (r ∈ registrations)) (map_to_list (pairs s)).

(** The windows a menu and a session own, and the nodes of their trees in
    the order of the teardown. *)
Definition menu_windows (m : tui_menu_t) : list tui_window_t :=
  slots_of (Menu.windows m).

Definition tui_trees (t : tui_t) : list tui_window_t :=
  flat_map menu_windows (slots_of (Tui.menus t)) ++ slots_of (Tui.windows t).

Definition tui_nodes (t : tui_t) : list tui_window_t :=
  flat_map postorder (tui_trees t).

(** The calls of a successful [tui_init]. *)
Definition startup_calls (scr : ptr WINDOW) : list call :=
  [initscr; noecho; raw; keypad scr true; start_color; use_default_colors]
  ++ registration_calls ++ [clear; refresh].

(** A screen on [started_terminal] where [newwin] gives the window 9, and
    [NULL] for a size or a corner that is negative, with one window, 8. *)
Definition example_screen : screen :=
  mkScreen started_terminal
           (λ nlines ncols begin_y begin_x,
              if decide (0 ≤ nlines ∧ 0 ≤ ncols ∧ 0 ≤ begin_y ∧ 0 ≤ begin_x)
              then Some 9%N else NULL)
           (λ _, OK)
           {[ 8%N := mkRect 10 1 0 0 ]}.

(** The same screen where [wresize] fails. *)
Definition rigid_screen : screen :=
  mkScreen started_terminal
           (λ _ _ _ _, NULL)
           (λ c, match c with wresize _ _ _ => ERR | _ => OK end)
           {[ 8%N := mkRect 10 1 0 0 ]}.

(** The session [tui_create] makes on [started_terminal] for the handler at
    the address 20. *)
Definition example_session : tui_t :=
  Tui.mk 80 24 NULL 0 NULL 0 NULL 0 NULL NULL 0 (Some 20%positive) false.

(** [small_terminal] after [tui_init]. *)
Definition started_small_terminal : world :=
  match tui_init small_terminal with
  | Some (_, s) => s
  | None => small_terminal
  end.

(** * Properties *)

(** ** The monad and the world *)

Lemma bind_eq {A B : Type} (m : M A) (k : A → M B) (s : world) :
  (m ≫= k) s = match m s with Some (a, s') => k a s' | None => None end.
Proof. reflexivity. Qed.

Lemma ret_eq {A : Type} (a : A) (s : world) : mret (M := M) a s = Some (a, s).
Proof. reflexivity. Qed.

Lemma fmap_eq {A B : Type} (f : A → B) (m : M A) (s : world) :
  (f <$> m) s = match m s with Some (a, s') => Some (f a, s') | None => None end.
Proof. reflexivity. Qed.

Lemma curses_step (c : call) (s : world) :
  curses c s = Some (status_of s c, step c s).
Proof. reflexivity. Qed.

Lemma bind_curses {B : Type} (c : call) (k : status → M B) (s : world) :
  (curses c ≫= k) s = k (status_of s c) (step c s).
Proof. reflexivity. Qed.

Lemma status_of_step (c : call) (s : world) : status_of (step c s) = status_of s.
Proof. unfold step, curses. simpl. destruct (status_of s c), c; reflexivity. Qed.

Lemma colors_step (c : call) (s : world) : colors (step c s) = colors s.
Proof. unfold step, curses. simpl. destruct (status_of s c), c; reflexivity. Qed.

Lemma trace_step (c : call) (s : world) :
  trace (step c s) = trace s ++ [CursesCall c (status_of s c)].
Proof. unfold step, curses. simpl. destruct (status_of s c), c; reflexivity. Qed.

Lemma run_calls_cons (c : call) (calls : list call) (s : world) :
  run_calls (c :: calls) s = run_calls calls (step c s).
Proof. reflexivity. Qed.

Lemma status_of_run_calls (calls : list call) (s : world) :
  status_of (run_calls calls s) = status_of s.
Proof.
  revert s. induction calls as [|c calls IH]; intros s; [reflexivity|].
  rewrite run_calls_cons, IH. apply status_of_step.
Qed.

Lemma colors_run_calls (calls : list call) (s : world) :
  colors (run_calls calls s) = colors s.
Proof.
  revert s. induction calls as [|c calls IH]; intros s; [reflexivity|].
  rewrite run_calls_cons, IH. apply colors_step.
Qed.

Lemma trace_run_calls (calls : list call) (s : world) :
  trace (run_calls calls s) = trace s ++ events_of s calls.
Proof.
  revert s. induction calls as [|c calls IH]; intros s.
  - simpl. symmetry. apply app_nil_r.
  - rewrite run_calls_cons, IH, trace_step.
    rewrite <- app_assoc. simpl. unfold events_of.
    rewrite status_of_step. reflexivity.
Qed.

Lemma run_calls_app (a b : list call) (s : world) :
  run_calls (a ++ b) s = run_calls b (run_calls a s).
Proof. apply foldl_app. Qed.

Lemma calls_of_events_of (s : world) (calls : list call) :
  calls_of (events_of s calls) = calls.
Proof.
  induction calls as [|c calls IH]; [reflexivity|].
  unfold calls_of, events_of in *. simpl. f_equal. exact IH.
Qed.

Lemma calls_of_app (a b : list event) : calls_of (a ++ b) = calls_of a ++ calls_of b.
Proof. apply omap_app. Qed.

Lemma handlers_of_events_of (s : world) (calls : list call) :
  handlers_of (events_of s calls) = [].
Proof. induction calls as [|c calls IH]; [reflexivity|exact IH]. Qed.

Lemma world_eta (s : world) : set_trace s (trace s) = s.
Proof. destruct s; reflexivity. Qed.

Lemma record_nil (s : world) : record s [] = s.
Proof. unfold record. simpl. rewrite app_nil_r. apply world_eta. Qed.

Lemma record_app (s : world) (a b : list call) :
  record (record s a) b = record s (a ++ b).
Proof.
  unfold record, set_trace, events_of. simpl.
  rewrite map_app, app_assoc. reflexivity.
Qed.

Lemma status_of_record (s : world) (a : list call) :
  status_of (record s a) = status_of s.
Proof. reflexivity. Qed.

Lemma curses_passive (c : call) (s : world) :
  passive c = true → curses c s = Some (status_of s c, record s [c]).
Proof.
  intros Hc. unfold curses, record, events_of. simpl.
  destruct c; try discriminate Hc; destruct (status_of s _); reflexivity.
Qed.

(** ** Colours *)

Lemma color_ord_range (c : tui_color_t) : 0 ≤ color_ord c < 9.
Proof. destruct c; simpl; lia. Qed.

Lemma color_ord_inj (c c' : tui_color_t) : color_ord c = color_ord c' → c = c'.
Proof. destruct c, c'; intros H; try reflexivity; discriminate H. Qed.

Lemma color_ord_none (c : tui_color_t) :
  color_ord c = color_ord TUI_COLOR_NONE ↔ c = TUI_COLOR_NONE.
Proof. split; [apply color_ord_inj | intros ->; reflexivity]. Qed.

Lemma TUI_COLORS_lookup (c : tui_color_t) :
  TUI_COLORS !! Z.to_nat (color_ord c) = Some (color_ord c - 1).
Proof. destruct c; reflexivity. Qed.

Lemma curses_color_succ (c : tui_color_t) : curses_color c + 1 = color_ord c.
Proof. destruct c; reflexivity. Qed.

Lemma to_short_small (z : Z) : -32768 ≤ z < 32768 → to_short z = z.
Proof. intros H. unfold to_short. rewrite Z.mod_small; lia. Qed.

Lemma resolve_range (fg bg : tui_color_t) : 0 ≤ resolve fg bg < 81.
Proof.
  unfold resolve, color_pair.
  pose proof (color_ord_range fg). pose proof (color_ord_range bg). lia.
Qed.

Lemma to_short_resolve (fg bg : tui_color_t) :
  to_short (resolve fg bg) = resolve fg bg.
Proof. apply to_short_small. pose proof (resolve_range fg bg). lia. Qed.

Lemma all_colors_complete (c : tui_color_t) : In c all_colors.
Proof. destruct c; simpl; tauto. Qed.

Lemma registrations_complete (fg bg : tui_color_t) :
  In (resolve fg bg, (curses_color fg, curses_color bg)) registrations.
Proof.
  unfold registrations. apply in_flat_map. exists fg.
  split; [apply all_colors_complete|].
  apply (in_map (λ bg, (resolve fg bg, (curses_color fg, curses_color bg)))).
  apply all_colors_complete.
Qed.

Lemma registrations_indices : map fst registrations = map Z.of_nat (seq 0 81).
Proof. vm_compute. reflexivity. Qed.

Lemma colors_registered_lookup (s : world) (fg bg : tui_color_t) :
  colors_registered s = true →
  pairs s !! resolve fg bg = Some (curses_color fg, curses_color bg).
Proof.
  intros H. unfold colors_registered in H. rewrite forallb_forall in H.
  specialize (H _ (registrations_complete fg bg)).
  apply bool_decide_eq_true in H. exact H.
Qed.

Lemma last_color_registered (fg bg last_fg last_bg : tui_color_t) :
  last_color (Some (curses_color last_fg, curses_color last_bg))
             (color_ord fg) (color_ord bg)
  = (color_ord (inherit fg last_fg), color_ord (inherit bg last_bg)).
Proof.
  unfold last_color, inherit. rewrite !curses_color_succ.
  repeat case_decide; try reflexivity;
    repeat match goal with
           | H : color_ord _ = color_ord TUI_COLOR_NONE |- _ =>
               apply color_ord_none in H
           end; subst; try congruence.
Qed.

Lemma set_color_id (tui : tui_t) : Tui.set_color tui (Tui.color tui) = tui.
Proof. destruct tui; reflexivity. Qed.

(** What [tui_color_on] does once curses knows the pair [tui->color]. *)
Lemma tui_color_on_run (tui : tui_t) (fg bg last_fg last_bg : tui_color_t)
    (s : world) :
  pairs s !! Tui.color tui = Some (curses_color last_fg, curses_color last_bg) →
  let color := resolve (inherit fg last_fg) (inherit bg last_bg) in
  tui_color_on tui fg bg s
  = Some (Tui.set_color tui color, record s [attron (COLOR_PAIR color)]).
Proof.
  intros Hlast color. unfold tui_color_on.
  rewrite bind_eq. unfold pair_content. rewrite Hlast, last_color_registered.
  fold (resolve (inherit fg last_fg) (inherit bg last_bg)). fold color.
  unfold color at 1 2. rewrite to_short_resolve. fold color.
  rewrite bind_eq, curses_passive by reflexivity. reflexivity.
Qed.

Lemma tui_color_off_run (tui : tui_t) (fg bg : tui_color_t) (s : world) :
  ∃ c : Z,
    tui_color_off tui fg bg s = Some (tui, record s [attroff (COLOR_PAIR c)]).
Proof.
  unfold tui_color_off. rewrite bind_eq. unfold pair_content.
  destruct (last_color _ _ _) as [fg' bg'].
  rewrite bind_eq, curses_passive by reflexivity.
  eexists. reflexivity.
Qed.

(** C9: [tui_color_off] returns the session it was given, with every field
    as it was, [tui->color] included; the world it leaves differs from the
    one it found by one [attroff] at the end of the trace, the registered
    pairs and the rest of the library are as before. *)
Theorem tui_color_off_frame (tui : tui_t) (fg bg : tui_color_t) (s : world) :
  ∃ (c : Z) (s' : world),
    tui_color_off tui fg bg s = Some (tui, s')
    ∧ trace s' = trace s ++ [CursesCall (attroff (COLOR_PAIR c))
                                        (status_of s (attroff (COLOR_PAIR c)))]
    ∧ s' = set_trace s (trace s').
Proof.
  destruct (tui_color_off_run tui fg bg s) as [c Hrun].
  exists c, (record s [attroff (COLOR_PAIR c)]).
  split; [exact Hrun|]. split; reflexivity.
Qed.

Lemma inherit_opaque (c last : tui_color_t) :
  c ≠ TUI_COLOR_NONE → inherit c last = c.
Proof. intros H. unfold inherit. case_decide; congruence. Qed.

Lemma inherit_transparent (last : tui_color_t) :
  inherit TUI_COLOR_NONE last = last.
Proof. reflexivity. Qed.

Lemma pairs_record (s : world) (calls : list call) :
  pairs (record s calls) = pairs s.
Proof. reflexivity. Qed.

(** What the colour functions do when curses does not know the pair
    [tui->color]: the colours are taken as they are. *)
Lemma tui_color_on_unknown (tui : tui_t) (fg bg : tui_color_t) (s : world) :
  pairs s !! Tui.color tui = None →
  tui_color_on tui fg bg s
  = Some (Tui.set_color tui (resolve fg bg),
          record s [attron (COLOR_PAIR (resolve fg bg))]).
Proof.
  intros Hlast. unfold tui_color_on.
  rewrite bind_eq. unfold pair_content. rewrite Hlast.
  change (last_color None (color_ord fg) (color_ord bg))
    with (color_ord fg, color_ord bg).
  cbv iota beta. fold (resolve fg bg). rewrite to_short_resolve.
  rewrite bind_eq, curses_passive by reflexivity. reflexivity.
Qed.

(** Two colours that are not transparent are taken as they are in every
    world. *)
Lemma tui_color_on_opaque (tui : tui_t) (fg bg : tui_color_t) (s : world) :
  fg ≠ TUI_COLOR_NONE → bg ≠ TUI_COLOR_NONE →
  tui_color_on tui fg bg s
  = Some (Tui.set_color tui (resolve fg bg),
          record s [attron (COLOR_PAIR (resolve fg bg))]).
Proof.
  intros Hfg Hbg. unfold tui_color_on.
  rewrite bind_eq. unfold pair_content.
  assert (Hlast : last_color (pairs s !! Tui.color tui)
                             (color_ord fg) (color_ord bg)
                  = (color_ord fg, color_ord bg)).
  { unfold last_color. destruct (pairs s !! Tui.color tui) as [[lf lb]|];
      [|reflexivity].
    rewrite !decide_False by (rewrite color_ord_none; assumption).
    reflexivity. }
  rewrite Hlast. fold (resolve fg bg). rewrite to_short_resolve.
  rewrite bind_eq, curses_passive by reflexivity. reflexivity.
Qed.

(** C1, as the code has it: when curses answers [pair_content] for the pair
    made active last, [(last_fg, last_bg)], [tui_color_on] puts the last
    foreground in the place of a transparent [fg] and the last background in
    the place of a transparent [bg] (and keeps the colours that are not
    transparent), makes the resulting pair the active one and turns it on in
    curses; when curses holds that pair too, activating two transparent
    colours next leaves it active.  When [pair_content] reports an error for
    the pair made active last nothing is put in the place of a transparent
    colour: the colours are taken as they are. *)
Theorem tui_color_on_inherits (tui : tui_t) (s : world) (fg bg : tui_color_t) :
  (∀ last_fg last_bg : tui_color_t,
     pairs s !! Tui.color tui
     = Some (curses_color last_fg, curses_color last_bg) →
     let color := resolve (inherit fg last_fg) (inherit bg last_bg) in
     let tui' := Tui.set_color tui color in
     let s' := record s [attron (COLOR_PAIR color)] in
     tui_color_on tui fg bg s = Some (tui', s')
     ∧ (pairs s !! color
        = Some (curses_color (inherit fg last_fg),
                curses_color (inherit bg last_bg)) →
        tui_color_on tui' TUI_COLOR_NONE TUI_COLOR_NONE s'
        = Some (tui', record s' [attron (COLOR_PAIR color)])))
  ∧ (pairs s !! Tui.color tui = None →
     tui_color_on tui fg bg s
     = Some (Tui.set_color tui (resolve fg bg),
             record s [attron (COLOR_PAIR (resolve fg bg))])).
Proof.
  split.
  - intros last_fg last_bg Hlast color tui' s'. split.
    + apply tui_color_on_run, Hlast.
    + intros Hcolor. rewrite <- (set_color_id tui') at 2.
      apply (tui_color_on_run tui' TUI_COLOR_NONE TUI_COLOR_NONE).
      exact Hcolor.
  - apply tui_color_on_unknown.
Qed.

Lemma tui_color_on_inherits_witness :
  (pairs started_terminal !! Tui.color (Tui.set_color example_tui 23)
   = Some (curses_color TUI_COLOR_RED, curses_color TUI_COLOR_BLUE)
   ∧ tui_color_on (Tui.set_color example_tui 23) TUI_COLOR_NONE TUI_COLOR_GREEN
                  started_terminal
     = Some (Tui.set_color example_tui 21,
             record started_terminal [attron (COLOR_PAIR 21)])
   ∧ pairs started_terminal !! 21
     = Some (curses_color TUI_COLOR_RED, curses_color TUI_COLOR_GREEN)
   ∧ tui_color_on (Tui.set_color example_tui 21) TUI_COLOR_NONE TUI_COLOR_NONE
                  (record started_terminal [attron (COLOR_PAIR 21)])
     = Some (Tui.set_color example_tui 21,
             record (record started_terminal [attron (COLOR_PAIR 21)])
                    [attron (COLOR_PAIR 21)]))
  ∧ (pairs terminal !! Tui.color example_tui = None
     ∧ tui_color_on example_tui TUI_COLOR_NONE TUI_COLOR_GREEN terminal
       = Some (Tui.set_color example_tui 3,
               record terminal [attron (COLOR_PAIR 3)])).
Proof.
  assert (Hlast : pairs started_terminal
                    !! Tui.color (Tui.set_color example_tui 23)
                  = Some (curses_color TUI_COLOR_RED,
                          curses_color TUI_COLOR_BLUE))
    by (vm_compute; reflexivity).
  assert (Hcolor : pairs started_terminal !! 21
                   = Some (curses_color TUI_COLOR_RED,
                           curses_color TUI_COLOR_GREEN))
    by (vm_compute; reflexivity).
  assert (Hnone : pairs terminal !! Tui.color example_tui = None)
    by (vm_compute; reflexivity).
  split.
  - split; [exact Hlast|].
    destruct (proj1 (tui_color_on_inherits (Tui.set_color example_tui 23)
                       started_terminal TUI_COLOR_NONE TUI_COLOR_GREEN)
                    TUI_COLOR_RED TUI_COLOR_BLUE Hlast) as [Hon Hagain].
    split; [exact Hon|]. split; [exact Hcolor|]. exact (Hagain Hcolor).
  - split; [exact Hnone|].
    exact (proj2 (tui_color_on_inherits example_tui terminal
                    TUI_COLOR_NONE TUI_COLOR_GREEN) Hnone).
Defined.

(** On [small_terminal] the registration of the pair 80 is refused and
    [tui_init] returns 0 all the same.  In the session made next, white on
    white is activated, which makes 80 the active pair, and two transparent
    colours after it: curses has no pair 80, [pair_content] reports the
    error, and the pair made active is 0, not 80. *)
Lemma tui_color_on_forgets_refused_pair :
  tui_init small_terminal = Some (0, started_small_terminal)
  ∧ tui_create (Some 20%positive) started_small_terminal
    = Some (Some example_session, set_mem_avail started_small_terminal 0)
  ∧ resolve TUI_COLOR_WHITE TUI_COLOR_WHITE = 80
  ∧ tui_color_on example_session TUI_COLOR_WHITE TUI_COLOR_WHITE
                 (set_mem_avail started_small_terminal 0)
    = Some (Tui.set_color example_session 80,
            record (set_mem_avail started_small_terminal 0)
                   [attron (COLOR_PAIR 80)])
  ∧ tui_color_on (Tui.set_color example_session 80)
                 TUI_COLOR_NONE TUI_COLOR_NONE
                 (record (set_mem_avail started_small_terminal 0)
                         [attron (COLOR_PAIR 80)])
    = Some (Tui.set_color example_session 0,
            record (record (set_mem_avail started_small_terminal 0)
                           [attron (COLOR_PAIR 80)])
                   [attron (COLOR_PAIR 0)])
  ∧ Tui.color (Tui.set_color example_session 0)
    ≠ resolve TUI_COLOR_WHITE TUI_COLOR_WHITE.
Proof.
  split_and!; try (vm_compute; reflexivity).
  vm_compute. discriminate.
Qed.

(** The colour of a session stays the index of a pair of colours: a new
    session has the pair of two transparent colours, and the colour
    functions keep the invariant. *)
Lemma tui_create_color (event : ptr address) (s s' : world) (tui : tui_t) :
  tui_create event s = Some (Some tui, s') →
  Tui.color tui = resolve TUI_COLOR_NONE TUI_COLOR_NONE.
Proof.
  unfold tui_create. rewrite bind_eq. unfold malloc.
  destruct (mem_avail s); [discriminate|].
  intros [= <- _]. reflexivity.
Qed.

Lemma tui_color_on_color (tui tui' : tui_t) (fg bg : tui_color_t) (s s' : world) :
  colors_registered s = true →
  (∃ last_fg last_bg, Tui.color tui = resolve last_fg last_bg) →
  tui_color_on tui fg bg s = Some (tui', s') →
  colors_registered s' = true
  ∧ ∃ fg' bg', Tui.color tui' = resolve fg' bg'.
Proof.
  intros Hreg (last_fg & last_bg & Hlast) Hrun.
  rewrite (tui_color_on_run tui fg bg last_fg last_bg) in Hrun
    by (rewrite Hlast; apply colors_registered_lookup, Hreg).
  injection Hrun as <- <-.
  split; [exact Hreg|]. eexists _, _. reflexivity.
Qed.

Lemma session_state_color (tui : tui_t) (s : world) :
  session_state tui s →
  colors_registered s = true
  ∧ ∃ last_fg last_bg, Tui.color tui = resolve last_fg last_bg.
Proof.
  induction 1 as [event s s' tui Hreg Hrun
                 |tui tui' s s' fg bg _ [Hreg Hlast] Hrun
                 |tui tui' s s' fg bg _ [Hreg Hlast] Hrun
                 |tui tui' s s' key _ IH Hrun].
  - split.
    + unfold tui_create in Hrun. rewrite bind_eq in Hrun. unfold malloc in Hrun.
      destruct (mem_avail s); [discriminate|]. injection Hrun as _ <-.
      exact Hreg.
    + exists TUI_COLOR_NONE, TUI_COLOR_NONE.
      apply (tui_create_color event s s'), Hrun.
  - apply (tui_color_on_color tui tui' fg bg s s'); assumption.
  - destruct (tui_color_off_run tui fg bg s) as [c Hoff].
    rewrite Hoff in Hrun. injection Hrun as <- <-. split; assumption.
  - injection Hrun as <- <-. exact IH.
Qed.

(** C10: [TUI_COLORS[i] = i - 1] for the nine colour values; so adding one to
    the components of a registered pair gives back the colour values it was
    registered for; so activating two transparent colours in a session whose
    colour is the index of a registered pair leaves the session as it was,
    [tui->color] included. *)
Theorem transparent_activation_idempotent :
  (∀ c : tui_color_t,
     TUI_COLORS !! Z.to_nat (color_ord c) = Some (color_ord c - 1))
  ∧ (∀ fg bg : tui_color_t,
       last_color (Some (curses_color fg, curses_color bg))
                  (color_ord TUI_COLOR_NONE) (color_ord TUI_COLOR_NONE)
       = (color_ord fg, color_ord bg))
  ∧ (∀ (tui : tui_t) (s : world),
       colors_registered s = true →
       In (Tui.color tui) (map fst registrations) →
       tui_color_on tui TUI_COLOR_NONE TUI_COLOR_NONE s
       = Some (tui, record s [attron (COLOR_PAIR (Tui.color tui))])).
Proof.
  split; [exact TUI_COLORS_lookup|]. split.
  - intros fg bg. apply (last_color_registered TUI_COLOR_NONE TUI_COLOR_NONE).
  - intros tui s Hreg Hin.
    apply in_map_iff in Hin as ([p [f b]] & Hp & Hin). simpl in Hp.
    unfold registrations in Hin. apply in_flat_map in Hin as (fg & _ & Hin).
    apply in_map_iff in Hin as (bg & [= <- <- <-] & _).
    pose proof (tui_color_on_run tui TUI_COLOR_NONE TUI_COLOR_NONE fg bg s) as H.
    simpl in H. rewrite <- Hp in H.
    rewrite (colors_registered_lookup s fg bg Hreg) in H.
    specialize (H eq_refl). rewrite !inherit_transparent in H.
    rewrite Hp, set_color_id in H. exact H.
Qed.

Lemma transparent_activation_idempotent_witness :
  colors_registered started_terminal = true
  ∧ In (Tui.color (Tui.set_color example_tui 80)) (map fst registrations)
  ∧ tui_color_on (Tui.set_color example_tui 80) TUI_COLOR_NONE TUI_COLOR_NONE
                 started_terminal
    = Some (Tui.set_color example_tui 80,
            record started_terminal [attron (COLOR_PAIR 80)]).
Proof.
  assert (Hreg : colors_registered started_terminal = true)
    by (vm_compute; reflexivity).
  assert (Hin : In (Tui.color (Tui.set_color example_tui 80))
                   (map fst registrations))
    by (rewrite registrations_indices; apply (in_map Z.of_nat _ 80%nat);
        apply in_seq; lia).
  split; [exact Hreg|]. split; [exact Hin|].
  exact (proj2 (proj2 transparent_activation_idempotent)
               (Tui.set_color example_tui 80) started_terminal Hreg Hin).
Defined.

(** *** Registration *)

Lemma for_loop_run_calls (body : nat → M unit) (g : nat → list call)
    (n start : nat) :
  (∀ i s, (start ≤ i < start + n)%nat → body i s = Some ((), run_calls (g i) s)) →
  ∀ s, for_loop body start n s
       = Some ((), run_calls (flat_map g (seq start n)) s).
Proof.
  revert start. induction n as [|n IH]; intros start H s; [reflexivity|].
  simpl. rewrite bind_eq, H by lia. rewrite run_calls_app.
  apply IH. intros i s' Hi. apply H. lia.
Qed.

Lemma small_index (P : nat → Prop) (i : nat) :
  (i < 9)%nat →
  P 0%nat → P 1%nat → P 2%nat → P 3%nat → P 4%nat → P 5%nat → P 6%nat →
  P 7%nat → P 8%nat → P i.
Proof.
  intros Hi. do 9 (destruct i as [|i]; [tauto|]). lia.
Qed.

(** [tui_colors_init] is the 81 registrations, in index order. *)
Lemma tui_colors_init_run (s : world) :
  tui_colors_init s = Some ((), run_calls registration_calls s).
Proof.
  unfold tui_colors_init, for_range.
  pose (g := λ fg_index bg_index : nat,
          [init_pair (to_short (Z.of_nat (fg_index * 9 + bg_index)))
                     (default 0 (TUI_COLORS !! fg_index))
                     (default 0 (TUI_COLORS !! bg_index))]).
  rewrite (for_loop_run_calls _ (λ fg_index, flat_map (g fg_index) (seq 0 9))).
  - reflexivity.
  - intros fg_index s1 Hfg. apply for_loop_run_calls.
    intros bg_index s2 Hbg.
    assert (Hf : (fg_index < 9)%nat) by lia.
    assert (Hb : (bg_index < 9)%nat) by lia.
    clear Hfg Hbg. revert s2.
    pattern fg_index. apply small_index; [exact Hf|..];
      pattern bg_index; apply small_index; try exact Hb;
      intros s2; reflexivity.
Qed.

Lemma pairs_step (c : call) (s : world) :
  pairs (step c s)
  = match c, status_of s c with
    | init_pair p f b, OK => <[p := (f, b)]> (pairs s)
    | _, _ => pairs s
    end.
Proof.
  unfold step, curses. destruct c; simpl; destruct (status_of s _); reflexivity.
Qed.

Lemma pairs_run_registrations (regs : list (Z * (Z * Z))) (s : world) :
  (∀ r, In r regs → status_of s (init_pair r.1 r.2.1 r.2.2) = OK) →
  pairs (run_calls (map (λ r, init_pair r.1 r.2.1 r.2.2) regs) s)
  = foldl (λ m r, <[r.1 := r.2]> m) (pairs s) regs.
Proof.
  revert s. induction regs as [|[p [f b]] regs IH]; intros s H; [reflexivity|].
  simpl map. rewrite run_calls_cons, IH.
  - rewrite pairs_step.
    pose proof (H (p, (f, b)) (or_introl eq_refl)) as Hok. simpl in Hok.
    rewrite Hok. reflexivity.
  - intros r Hr. rewrite status_of_step. apply H. right. exact Hr.
Qed.

Lemma lookup_foldl_insert_fresh (regs : list (Z * (Z * Z))) (m : gmap Z (Z * Z))
    (k : Z) :
  ¬ In k (map fst regs) →
  foldl (λ m r, <[r.1 := r.2]> m) m regs !! k = m !! k.
Proof.
  revert m. induction regs as [|[p v] regs IH]; intros m Hk; [reflexivity|].
  simpl in *. rewrite IH by tauto.
  apply lookup_insert_ne. intros ->. tauto.
Qed.

Lemma lookup_foldl_insert (regs : list (Z * (Z * Z))) (m : gmap Z (Z * Z))
    (k : Z) (v : Z * Z) :
  List.NoDup (map fst regs) → In (k, v) regs →
  foldl (λ m r, <[r.1 := r.2]> m) m regs !! k = Some v.
Proof.
  revert m. induction regs as [|[p w] regs IH]; intros m Hnd Hin; [destruct Hin|].
  simpl in *. apply List.NoDup_cons_iff in Hnd as [Hp Hnd].
  destruct Hin as [[= -> ->]|Hin].
  - rewrite lookup_foldl_insert_fresh by exact Hp. apply lookup_insert_eq.
  - apply IH; assumption.
Qed.

Lemma registrations_NoDup : List.NoDup (map fst registrations).
Proof.
  rewrite registrations_indices. apply Finite.Injective_map_NoDup.
  - intros a b. apply Nat2Z.inj.
  - apply List.seq_NoDup.
Qed.

(** On a terminal that accepts the registrations, [tui_colors_init] leaves
    the 81 pairs registered. *)
Lemma tui_colors_init_registers (s : world) :
  (∀ c, In c registration_calls → status_of s c = OK) →
  ∃ s', tui_colors_init s = Some ((), s') ∧ colors_registered s' = true.
Proof.
  intros Hok. eexists. split; [apply tui_colors_init_run|].
  unfold colors_registered. apply forallb_forall. intros [k v] Hin.
  apply bool_decide_eq_true. unfold registration_calls.
  rewrite pairs_run_registrations.
  - apply lookup_foldl_insert; [apply registrations_NoDup | exact Hin].
  - intros r Hr. apply Hok. unfold registration_calls.
    apply (in_map (λ r, init_pair r.1 r.2.1 r.2.2)). exact Hr.
Qed.

(** *** Start-up *)

Lemma bind_get_stdscr {B : Type} (k : ptr WINDOW → M B) (s : world) :
  (get_stdscr ≫= k) s = k (stdscr s) s.
Proof. reflexivity. Qed.

Lemma stdscr_step (c : call) (s : world) :
  passive c = true → stdscr (step c s) = stdscr s.
Proof.
  intros Hc. unfold step. rewrite curses_passive by exact Hc. reflexivity.
Qed.

Lemma no_color_spec (s : world) :
  no_color s = true ↔ status_of s start_color = ERR ∨ colors s = false.
Proof.
  unfold no_color. rewrite orb_true_iff, bool_decide_eq_true, negb_true_iff.
  reflexivity.
Qed.

(** [tui_init] is the calls [tui_init_calls], and returns 1 exactly when it
    finds no colours. *)
Lemma tui_init_run (s : world) :
  tui_init s
  = Some (if no_color s then 1 else 0, run_calls (tui_init_calls s) s).
Proof.
  unfold tui_init, tui_init_calls.
  rewrite run_calls_app, !run_calls_cons.
  change (run_calls [] ?x) with x.
  rewrite !bind_curses, bind_get_stdscr.
  rewrite !stdscr_step by reflexivity.
  rewrite !bind_curses.
  set (s5 := step start_color _).
  rewrite !status_of_step. rewrite bind_eq.
  assert (Hcolors : colors s5 = colors s)
    by (unfold s5; rewrite !colors_step; reflexivity).
  unfold no_color. case_decide as Hstart.
  - rewrite bool_decide_eq_true_2 by exact Hstart. simpl orb. cbv iota.
    rewrite ret_eq, bind_curses. reflexivity.
  - rewrite bool_decide_eq_false_2 by exact Hstart. simpl orb.
    rewrite fmap_eq. unfold has_colors. rewrite Hcolors.
    destruct (colors s).
    + change (negb true) with false. cbv iota.
      rewrite bind_curses, bind_eq, tui_colors_init_run, !bind_curses.
      change ([use_default_colors] ++ ?l) with (use_default_colors :: l).
      rewrite run_calls_cons, run_calls_app. reflexivity.
    + change (negb false) with true. cbv iota.
      rewrite bind_curses. reflexivity.
Qed.

Lemma init_pairs_of_app (a b : list event) :
  init_pairs_of (a ++ b) = init_pairs_of a ++ init_pairs_of b.
Proof. unfold init_pairs_of. rewrite calls_of_app. apply omap_app. Qed.

Lemma init_pairs_of_registration_calls (s : world) :
  init_pairs_of (events_of s registration_calls) = registrations.
Proof.
  unfold init_pairs_of. rewrite calls_of_events_of. unfold registration_calls.
  induction registrations as [|[p [f b]] regs IH]; [reflexivity|].
  simpl. f_equal. exact IH.
Qed.

(** C2: the index of a pair of colours is [fg * 9 + bg] on the values of the
    enumeration, and [tui_color_on] stores that index for two colours that
    are not transparent; the index is a bijection between the pairs of
    colours and the indices 0 to 80; [tui_colors_init] asks curses for the
    81 pairs, each index with the curses colours of its pair, in the order
    of the indices, which leaves them all registered on a terminal that
    accepts them; and a [tui_init] that finds colours does so. *)
Theorem color_pair_addressing :
  (∀ fg bg : tui_color_t,
     resolve fg bg = color_ord fg * 9 + color_ord bg ∧ 0 ≤ resolve fg bg < 81)
  ∧ (∀ (tui : tui_t) (s : world) (fg bg : tui_color_t),
       fg ≠ TUI_COLOR_NONE → bg ≠ TUI_COLOR_NONE →
       tui_color_on tui fg bg s
       = Some (Tui.set_color tui (resolve fg bg),
               record s [attron (COLOR_PAIR (resolve fg bg))]))
  ∧ (∀ fg bg fg' bg' : tui_color_t,
       resolve fg bg = resolve fg' bg' → fg = fg' ∧ bg = bg')
  ∧ (∀ i : Z, 0 ≤ i < 81 → ∃ fg bg : tui_color_t, resolve fg bg = i)
  ∧ map fst registrations = map Z.of_nat (seq 0 81)
  ∧ (∀ s : world, ∃ s' evs,
       tui_colors_init s = Some ((), s')
       ∧ trace s' = trace s ++ evs ∧ init_pairs_of evs = registrations)
  ∧ (∀ s : world,
       (∀ c, In c registration_calls → status_of s c = OK) →
       ∃ s', tui_colors_init s = Some ((), s') ∧ colors_registered s' = true)
  ∧ (∀ s : world, no_color s = false → ∃ s' evs,
       tui_init s = Some (0, s')
       ∧ trace s' = trace s ++ evs ∧ init_pairs_of evs = registrations).
Proof.
  split_and!.
  - intros fg bg. split; [reflexivity | apply resolve_range].
  - intros tui s fg bg Hfg Hbg. unfold tui_color_on.
    rewrite bind_eq. unfold pair_content.
    assert (Hlast : last_color (pairs s !! Tui.color tui)
                               (color_ord fg) (color_ord bg)
                    = (color_ord fg, color_ord bg)).
    { unfold last_color. destruct (pairs s !! Tui.color tui) as [[lf lb]|];
        [|reflexivity].
      rewrite !decide_False by (rewrite color_ord_none; assumption).
      reflexivity. }
    rewrite Hlast. fold (resolve fg bg). rewrite to_short_resolve.
    rewrite bind_eq, curses_passive by reflexivity. reflexivity.
  - intros fg bg fg' bg' H. unfold resolve, color_pair in H.
    pose proof (color_ord_range fg). pose proof (color_ord_range bg).
    pose proof (color_ord_range fg'). pose proof (color_ord_range bg').
    split; apply color_ord_inj; lia.
  - intros i Hi.
    assert (Hin : In i (map fst registrations)).
    { rewrite registrations_indices.
      replace i with (Z.of_nat (Z.to_nat i)) by lia.
      apply in_map, in_seq. lia. }
    apply in_map_iff in Hin as ([p [f b]] & Hp & Hin). simpl in Hp.
    unfold registrations in Hin. apply in_flat_map in Hin as (fg & _ & Hin).
    apply in_map_iff in Hin as (bg & [= <- <- <-] & _).
    exists fg, bg. exact Hp.
  - exact registrations_indices.
  - intros s. eexists _, _. split; [apply tui_colors_init_run|].
    split; [apply trace_run_calls|]. apply init_pairs_of_registration_calls.
  - exact tui_colors_init_registers.
  - intros s Hcolor. eexists _, _. split; [|split].
    + rewrite tui_init_run, Hcolor. reflexivity.
    + apply trace_run_calls.
    + unfold tui_init_calls, events_of. rewrite Hcolor.
      rewrite !map_app, !init_pairs_of_app.
      fold (events_of s registration_calls).
      rewrite init_pairs_of_registration_calls. reflexivity.
Qed.

Lemma color_pair_addressing_witness :
  (TUI_COLOR_RED ≠ TUI_COLOR_NONE ∧ TUI_COLOR_BLUE ≠ TUI_COLOR_NONE
   ∧ tui_color_on example_tui TUI_COLOR_RED TUI_COLOR_BLUE terminal
     = Some (Tui.set_color example_tui 23,
             record terminal [attron (COLOR_PAIR 23)]))
  ∧ (resolve TUI_COLOR_RED TUI_COLOR_BLUE = resolve TUI_COLOR_RED TUI_COLOR_BLUE
     ∧ TUI_COLOR_RED = TUI_COLOR_RED ∧ TUI_COLOR_BLUE = TUI_COLOR_BLUE)
  ∧ (0 ≤ 80 < 81 ∧ ∃ fg bg : tui_color_t, resolve fg bg = 80)
  ∧ ((∀ c, In c registration_calls → status_of terminal c = OK)
     ∧ ∃ s', tui_colors_init terminal = Some ((), s')
             ∧ colors_registered s' = true)
  ∧ (no_color terminal = false
     ∧ ∃ s' evs, tui_init terminal = Some (0, s')
                 ∧ trace s' = trace terminal ++ evs
                 ∧ init_pairs_of evs = registrations).
Proof.
  destruct color_pair_addressing
    as (_ & Hon & Hinj & Hsurj & _ & _ & Hreg & Hinit).
  assert (Hok : ∀ c, In c registration_calls → status_of terminal c = OK)
    by (intros c _; reflexivity).
  assert (Hred : TUI_COLOR_RED ≠ TUI_COLOR_NONE) by discriminate.
  assert (Hblue : TUI_COLOR_BLUE ≠ TUI_COLOR_NONE) by discriminate.
  assert (H80 : 0 ≤ 80 < 81) by lia.
  split.
  { split; [exact Hred|]. split; [exact Hblue|].
    exact (Hon example_tui terminal TUI_COLOR_RED TUI_COLOR_BLUE Hred Hblue). }
  split.
  { split; [reflexivity|].
    exact (Hinj TUI_COLOR_RED TUI_COLOR_BLUE TUI_COLOR_RED TUI_COLOR_BLUE
                eq_refl). }
  split.
  { split; [exact H80 | exact (Hsurj 80 H80)]. }
  split.
  { split; [exact Hok | exact (Hreg terminal Hok)]. }
  split; [reflexivity | exact (Hinit terminal eq_refl)].
Defined.

(** C6, as the code has it: when [start_color()] reports an error or
    [has_colors()] is false, [tui_init] returns 1, its last call is
    [endwin()], which stops the terminal driver, and no pair has been
    registered; in every other case it returns 0, whatever the registrations
    report. *)
Theorem tui_init_failure (s : world) :
  (status_of s start_color = ERR ∨ colors s = false →
   ∃ s', tui_init s = Some (1, s')
         ∧ calls_of (drop (length (trace s)) (trace s'))
           = [initscr; noecho; raw; keypad (stdscr (step initscr s)) true;
              start_color; endwin]
         ∧ pairs s' = pairs s
         ∧ (status_of s endwin = OK → visual s' = false))
  ∧ (¬ (status_of s start_color = ERR ∨ colors s = false) →
     ∃ s', tui_init s = Some (0, s')).
Proof.
  rewrite <- no_color_spec. split; intros Hcolor.
  - eexists. split; [rewrite tui_init_run, Hcolor; reflexivity|].
    unfold tui_init_calls. rewrite Hcolor. split; [|split].
    + rewrite trace_run_calls, drop_app_length. apply calls_of_events_of.
    + simpl app. rewrite !run_calls_cons. change (run_calls [] ?x) with x.
      rewrite !pairs_step. repeat match goal with
                                  | |- context [match ?r with OK => _ | ERR => _ end] =>
                                      destruct r
                                  end; reflexivity.
    + intros Hend. simpl app. rewrite !run_calls_cons.
      change (run_calls [] ?x) with x.
      set (s5 := step start_color _).
      assert (Hs5 : status_of s5 endwin = OK)
        by (unfold s5; rewrite !status_of_step; exact Hend).
      unfold step at 1. unfold curses. rewrite Hs5. reflexivity.
  - apply not_true_is_false in Hcolor. eexists.
    rewrite tui_init_run, Hcolor. reflexivity.
Qed.

Lemma tui_init_failure_witness :
  ((status_of mono_terminal start_color = ERR ∨ colors mono_terminal = false)
   ∧ ∃ s', tui_init mono_terminal = Some (1, s')
          ∧ calls_of (drop (length (trace mono_terminal)) (trace s'))
            = [initscr; noecho; raw;
               keypad (stdscr (step initscr mono_terminal)) true;
               start_color; endwin]
          ∧ pairs s' = pairs mono_terminal
          ∧ (status_of mono_terminal endwin = OK → visual s' = false))
  ∧ (¬ (status_of small_terminal start_color = ERR
        ∨ colors small_terminal = false)
     ∧ ∃ s', tui_init small_terminal = Some (0, s')).
Proof.
  assert (H : status_of mono_terminal start_color = ERR
              ∨ colors mono_terminal = false) by (right; reflexivity).
  assert (H' : ¬ (status_of small_terminal start_color = ERR
                  ∨ colors small_terminal = false))
    by (intros [H'|H']; discriminate H').
  split; [split; [exact H|]|split; [exact H'|]].
  - exact (proj1 (tui_init_failure mono_terminal) H).
  - exact (proj2 (tui_init_failure small_terminal) H').
Defined.

(** On [small_terminal] the registration of the pair 80 fails, and
    [tui_init] returns 0 there, with the terminal driver running and the pair
    80 not registered. *)
Lemma tui_init_ignores_failed_registration :
  registration_calls !! 80%nat = Some (init_pair 80 7 7)
  ∧ status_of small_terminal (init_pair 80 7 7) = ERR
  ∧ ∃ s', tui_init small_terminal = Some (0, s')
          ∧ visual s' = true ∧ pairs s' !! 80 = None.
Proof.
  split; [reflexivity|]. split; [reflexivity|].
  eexists. split; [rewrite tui_init_run; reflexivity|].
  split; vm_compute; reflexivity.
Qed.

(** ** Teardown *)

(** Induction on window trees: the children of a container satisfy the
    property. *)
Lemma window_ind (P : tui_window_t → Prop) :
  (∀ p : tui_window_parent_t tui_window_t,
     (∀ slots, Parent.children p = Some slots →
               Forall (λ slot, ∀ c, slot = Some c → P c) slots) →
     P (ParentWindow p)) →
  (∀ t, P (TextWindow t)) →
  (∀ i, P (InputWindow i)) →
  ∀ w, P w.
Proof.
  intros Hparent Htext Hinput.
  fix IH 1. intros [p|t|i]; [|apply Htext|apply Hinput].
  apply Hparent. destruct p as [hd [children|] count vertical pos align];
    simpl; intros slots Heq; [|discriminate Heq].
  injection Heq as <-.
  induction children as [|[c|] rest IHrest]; constructor; try exact IHrest.
  - intros c' [= <-]. apply IH.
  - intros c' Hc'. discriminate Hc'.
Qed.

Lemma flat_map_flat_map {A B C : Type} (f : B → list C) (g : A → list B)
    (l : list A) :
  flat_map f (flat_map g l) = flat_map (λ a, flat_map f (g a)) l.
Proof.
  induction l as [|a l IH]; [reflexivity|].
  simpl. rewrite flat_map_app, IH. reflexivity.
Qed.

Lemma teardown_calls_parent (p : tui_window_parent_t tui_window_t) :
  teardown_calls (ParentWindow p)
  = windows_teardown_calls (slots_of (Parent.children p))
    ++ surface_calls (Head.window (Parent.head p)).
Proof.
  unfold teardown_calls, windows_teardown_calls, slots_of.
  simpl postorder. rewrite flat_map_app. simpl. rewrite app_nil_r.
  f_equal. destruct (Parent.children p) as [slots|]; [|reflexivity].
  simpl. rewrite !flat_map_flat_map. apply flat_map_ext.
  intros [c|]; simpl; [rewrite app_nil_r|]; reflexivity.
Qed.

Lemma postorder_parent (p : tui_window_parent_t tui_window_t) :
  postorder (ParentWindow p)
  = flat_map postorder (slots_of (Parent.children p)) ++ [ParentWindow p].
Proof.
  unfold slots_of. simpl. f_equal.
  destruct (Parent.children p) as [slots|]; [|reflexivity].
  simpl. rewrite flat_map_flat_map. apply flat_map_ext.
  intros [c|]; simpl; [rewrite app_nil_r|]; reflexivity.
Qed.

Lemma tui_ncurses_window_free_run (window : ptr (ptr WINDOW)) (s : world) :
  tui_ncurses_window_free window s
  = Some (nulled window,
          record s (flat_map (λ win, surface_calls (Some win)) (pointee window))).
Proof.
  destruct window as [[win|]|]; simpl; rewrite ?record_nil; try reflexivity.
  rewrite bind_eq, curses_passive by reflexivity.
  rewrite bind_eq, curses_passive by reflexivity.
  rewrite bind_eq, curses_passive by reflexivity.
  rewrite !record_app. reflexivity.
Qed.

Lemma slots_of_cons {T : Type} (slot : ptr T) (rest : list (ptr T)) :
  slots_of (Some (slot :: rest)) = slots_of (Some [slot]) ++ slots_of (Some rest).
Proof. unfold slots_of. simpl. rewrite app_nil_r. reflexivity. Qed.

Section slots_run.
Context {T : Type}.
Variable slot_free : ptr (ptr T) → M (ptr (ptr T)).
Variable calls : T → list call.

(** [slot_free] returns at once on a slot that holds [NULL]. *)
Hypothesis slot_free_null :
  ∀ s, slot_free (Some NULL) s = Some (Some NULL, s).

(** [slot_free] frees [x]: it leaves [NULL] in the slot and issues the
    calls of [x]. *)
Local Abbreviation frees x :=
  (∀ s, slot_free (Some (Some x)) s = Some (Some NULL, record s (calls x))).

Lemma free_loop_run (slots : list (ptr T)) :
  Forall (λ slot, ∀ x, slot = Some x → frees x) slots →
  ∀ s, free_loop slot_free slots (length slots) s
       = Some (map (λ _, NULL) slots,
               record s (flat_map calls (slots_of (Some slots)))).
Proof using slot_free_null.
  induction 1 as [|slot rest Hslot _ IH]; intros s.
  - simpl. rewrite record_nil. reflexivity.
  - simpl free_loop. simpl length. rewrite !bind_eq.
    assert (Hrun : slot_free (Some slot) s
                   = Some (Some NULL,
                           record s (flat_map calls (slots_of (Some [slot]))))).
    { destruct slot as [x|].
      - rewrite (Hslot x eq_refl). unfold slots_of. simpl.
        rewrite app_nil_r. reflexivity.
      - rewrite slot_free_null. unfold slots_of. simpl.
        rewrite record_nil. reflexivity. }
    rewrite Hrun. simpl deref. rewrite ret_eq. cbv iota beta.
    rewrite bind_eq, IH, ret_eq.
    rewrite record_app, (slots_of_cons slot rest), flat_map_app.
    reflexivity.
Qed.

(** The loop with the index is the loop over the slots. *)
Lemma free_loop_indexed_eq (passes : nat) :
  ∀ (slots before : list (ptr T)) (s : world),
    free_loop_indexed slot_free (before ++ slots) (length before) passes s
    = match free_loop slot_free slots passes s with
      | Some (slots', s') => Some (before ++ slots', s')
      | None => None
      end.
Proof using Type.
  induction passes as [|passes IH]; intros slots before s;
    [destruct slots; reflexivity|].
  simpl free_loop_indexed. rewrite bind_eq.
  unfold at_index. destruct slots as [|slot rest]; simpl free_loop.
  - rewrite app_nil_r, lookup_ge_None_2 by lia. reflexivity.
  - rewrite list_lookup_middle by reflexivity. rewrite ret_eq.
    rewrite !bind_eq.
    destruct (slot_free (Some slot) s) as [[r s1]|]; [|reflexivity].
    destruct r as [slot'|]; [|reflexivity]. simpl deref. rewrite !ret_eq.
    replace (<[length before := slot']> (before ++ slot :: rest))
      with ((before ++ [slot']) ++ rest).
    + replace (S (length before)) with (length (before ++ [slot']))
        by (rewrite length_app; simpl; lia).
      rewrite IH, bind_eq.
      destruct (free_loop slot_free rest passes s1) as [[r s2]|];
        [|reflexivity].
      rewrite ret_eq, <- app_assoc. reflexivity.
    + rewrite <- app_assoc. simpl.
      rewrite insert_app_r_alt, Nat.sub_diag by lia. reflexivity.
Qed.

Lemma free_all_run (array : ptr (list (ptr T))) (count : nat) :
  match array with
  | Some slots =>
      length slots = count
      ∧ Forall (λ slot, ∀ x, slot = Some x → frees x) slots
  | None => count = 0%nat
  end →
  ∀ s, ∃ array',
    free_all slot_free array count s
    = Some (array', record s (flat_map calls (slots_of array))).
Proof using slot_free_null.
  intros Harray s. unfold free_all. destruct array as [slots|].
  - destruct Harray as [<- Hslots]. destruct slots as [|slot rest].
    + eexists. simpl. rewrite record_nil. reflexivity.
    + eexists. change (length (slot :: rest)) with (S (length rest)).
      cbv iota. change (S (length rest)) with (length (slot :: rest)).
      rewrite fmap_eq, (free_loop_run _ Hslots). reflexivity.
  - subst count. eexists. simpl. rewrite record_nil. reflexivity.
Qed.
End slots_run.

(** The [switch] with the cycle closed: the calls in it are calls of
    [tui_window_free]. *)
Lemma tui_window_free_switch_eq (w : tui_window_t) :
  tui_window_free_switch w
  = match Head.type (head_of w) with
    | TUI_WINDOW_PARENT =>
        p ← as_parent w;
        r ← tui_window_parent_free (Some (Some p));
        fmap (M := option) ParentWindow <$> deref r
    | TUI_WINDOW_TEXT =>
        t ← as_text w;
        r ← tui_window_text_free (Some (Some t));
        fmap (M := option) TextWindow <$> deref r
    | TUI_WINDOW_INPUT =>
        i ← as_input w;
        r ← tui_window_input_free (Some (Some i));
        fmap (M := option) InputWindow <$> deref r
    end.
Proof. destruct w as [p|t|i]; simpl; destruct (Head.type _); reflexivity. Qed.

Lemma tui_window_free_null (s : world) :
  tui_window_free (Some NULL) s = Some (Some NULL, s).
Proof. reflexivity. Qed.

Lemma array_ok_spec {T : Type} (ok : T → bool) (array : ptr (list (ptr T)))
    (count : nat) :
  array_ok ok array count = true →
  match array with
  | Some slots =>
      length slots = count
      ∧ Forall (λ slot, ∀ x, slot = Some x → ok x = true) slots
  | None => count = 0%nat
  end.
Proof.
  unfold array_ok. destruct array as [slots|].
  - rewrite andb_true_iff, bool_decide_eq_true, forallb_forall.
    intros [Hlen Hok]. split; [exact Hlen|].
    apply Forall_forall. intros slot Hslot x ->.
    apply (Hok (Some x)), list_elem_of_In, Hslot.
  - apply bool_decide_eq_true.
Qed.

Lemma tui_windows_free_with_run {W : Type}
    (window_free : ptr (ptr W) → M (ptr (ptr W))) (calls : W → list call)
    (windows : ptr (list (ptr W))) (count : nat) :
  (∀ s, window_free (Some NULL) s = Some (Some NULL, s)) →
  match windows with
  | Some slots =>
      length slots = count
      ∧ Forall (λ slot, ∀ x, slot = Some x → ∀ s,
                  window_free (Some (Some x)) s
                  = Some (Some NULL, record s (calls x))) slots
  | None => count = 0%nat
  end →
  ∀ s, tui_windows_free_with window_free windows count s
       = Some ((NULL, 0%nat), record s (flat_map calls (slots_of windows))).
Proof.
  intros Hnull Hwindows s. unfold tui_windows_free_with.
  destruct (free_all_run window_free calls Hnull windows count Hwindows s)
    as [windows' Hrun].
  rewrite bind_eq, Hrun. reflexivity.
Qed.

(** Running the monad as far as it is determined. *)
Ltac run_m :=
  repeat first [ rewrite ret_eq | rewrite bind_eq | rewrite fmap_eq
               | progress unfold free | progress simpl deref
               | progress cbv iota beta ].

Lemma tui_window_parent_free_with_run {W : Type}
    (window_free : ptr (ptr W) → M (ptr (ptr W))) (calls : W → list call)
    (p : tui_window_parent_t W) :
  (∀ s, window_free (Some NULL) s = Some (Some NULL, s)) →
  match Parent.children p with
  | Some slots =>
      length slots = Parent.child_count p
      ∧ Forall (λ slot, ∀ x, slot = Some x → ∀ s,
                  window_free (Some (Some x)) s
                  = Some (Some NULL, record s (calls x))) slots
  | None => Parent.child_count p = 0%nat
  end →
  ∀ s, tui_window_parent_free_with window_free (Some (Some p)) s
       = Some (Some NULL,
               record s (flat_map calls (slots_of (Parent.children p))
                         ++ surface_calls (Head.window (Parent.head p)))).
Proof.
  intros Hnull Hchildren s. unfold tui_window_parent_free_with. run_m.
  rewrite (tui_windows_free_with_run window_free calls _ _ Hnull Hchildren).
  run_m. rewrite tui_ncurses_window_free_run. run_m.
  rewrite record_app. do 3 f_equal.
  destruct (Head.window (Parent.head p)); simpl; rewrite ?app_nil_r;
    reflexivity.
Qed.

Lemma tui_window_text_free_run (t : tui_window_text_t) (s : world) :
  tui_window_text_free (Some (Some t)) s
  = Some (Some NULL, record s (surface_calls (Head.window (Text.head t)))).
Proof.
  unfold tui_window_text_free. run_m.
  rewrite tui_ncurses_window_free_run. run_m.
  destruct (Head.window (Text.head t)); simpl; rewrite ?app_nil_r;
    reflexivity.
Qed.

Lemma tui_window_input_free_run (i : tui_window_input_t) (s : world) :
  tui_window_input_free (Some (Some i)) s
  = Some (Some NULL, record s (surface_calls (Head.window (Input.head i)))).
Proof.
  unfold tui_window_input_free. run_m.
  rewrite tui_ncurses_window_free_run. run_m.
  destruct (Head.window (Input.head i)); simpl; rewrite ?app_nil_r;
    reflexivity.
Qed.

(** What the destructor of a window does on a well-formed tree. *)
Lemma tui_window_free_switch_run (w : tui_window_t) :
  well_formed w = true →
  ∀ s, tui_window_free_switch w s = Some (NULL, record s (teardown_calls w)).
Proof.
  induction w as [p IH|t|i] using window_ind; intros Hwf s;
    rewrite tui_window_free_switch_eq; simpl in Hwf.
  - apply andb_true_iff in Hwf as [Htype Hchildren].
    apply bool_decide_eq_true in Htype.
    change (head_of (ParentWindow p)) with (Parent.head p). rewrite Htype.
    apply array_ok_spec in Hchildren.
    change (as_parent (ParentWindow p)) with (mret (M := M) p). run_m.
    unfold tui_window_parent_free.
    rewrite (tui_window_parent_free_with_run tui_window_free teardown_calls).
    + run_m. rewrite teardown_calls_parent. reflexivity.
    + exact tui_window_free_null.
    + destruct (Parent.children p) as [slots|]; [|exact Hchildren].
      destruct Hchildren as [Hlen Hok]. split; [exact Hlen|].
      specialize (IH slots eq_refl).
      rewrite Forall_forall in IH, Hok. apply Forall_forall.
      intros slot Hslot c -> s'.
      unfold tui_window_free, tui_window_free_with.
      rewrite fmap_eq, (IH _ Hslot c eq_refl (Hok _ Hslot c eq_refl)).
      reflexivity.
  - apply bool_decide_eq_true in Hwf.
    change (head_of (TextWindow t)) with (Text.head t). rewrite Hwf.
    change (as_text (TextWindow t)) with (mret (M := M) t). run_m.
    rewrite tui_window_text_free_run. run_m.
    unfold teardown_calls. simpl. rewrite app_nil_r. reflexivity.
  - apply bool_decide_eq_true in Hwf.
    change (head_of (InputWindow i)) with (Input.head i). rewrite Hwf.
    change (as_input (InputWindow i)) with (mret (M := M) i). run_m.
    rewrite tui_window_input_free_run. run_m.
    unfold teardown_calls. simpl. rewrite app_nil_r. reflexivity.
Qed.

Lemma tui_window_free_live (w : tui_window_t) (s : world) :
  well_formed w = true →
  tui_window_free (Some (Some w)) s
  = Some (Some NULL, record s (teardown_calls w)).
Proof.
  intros Hwf. unfold tui_window_free, tui_window_free_with.
  rewrite fmap_eq, tui_window_free_switch_run by exact Hwf. reflexivity.
Qed.

Lemma tui_window_free_run (window : ptr (ptr tui_window_t)) (s : world) :
  Forall (λ w, well_formed w = true) (pointee window) →
  tui_window_free window s
  = Some (nulled window, record s (flat_map teardown_calls (pointee window))).
Proof.
  intros Hwf. destruct window as [[w|]|]; simpl pointee in *.
  - rewrite tui_window_free_live by (inversion Hwf; assumption).
    simpl. rewrite app_nil_r. reflexivity.
  - simpl. rewrite record_nil. reflexivity.
  - simpl. rewrite record_nil. reflexivity.
Qed.

Lemma tui_windows_free_run (windows : ptr (list (ptr tui_window_t)))
    (count : nat) (s : world) :
  array_ok well_formed windows count = true →
  tui_windows_free windows count s
  = Some ((NULL, 0%nat),
          record s (windows_teardown_calls (slots_of windows))).
Proof.
  intros Hok. apply array_ok_spec in Hok. unfold tui_windows_free.
  apply tui_windows_free_with_run; [exact tui_window_free_null|].
  destruct windows as [slots|]; [|exact Hok].
  destruct Hok as [Hlen Hok]. split; [exact Hlen|].
  eapply Forall_impl; [exact Hok|]. simpl.
  intros slot Hslot w -> s'. apply tui_window_free_live, Hslot. reflexivity.
Qed.

Lemma tui_menu_free_live (m : tui_menu_t) (s : world) :
  menu_well_formed m = true →
  tui_menu_free (Some (Some m)) s
  = Some (Some NULL, record s (menu_teardown_calls m)).
Proof.
  intros Hwf. unfold tui_menu_free.
  rewrite bind_eq, tui_windows_free_run by exact Hwf. reflexivity.
Qed.

Lemma tui_menu_free_run (menu : ptr (ptr tui_menu_t)) (s : world) :
  Forall (λ m, menu_well_formed m = true) (pointee menu) →
  tui_menu_free menu s
  = Some (nulled menu, record s (flat_map menu_teardown_calls (pointee menu))).
Proof.
  intros Hwf. destruct menu as [[m|]|]; simpl pointee in *.
  - rewrite tui_menu_free_live by (inversion Hwf; assumption).
    simpl. rewrite app_nil_r. reflexivity.
  - simpl. rewrite record_nil. reflexivity.
  - simpl. rewrite record_nil. reflexivity.
Qed.

Lemma tui_delete_live (t : tui_t) (s : world) :
  tui_well_formed t = true →
  tui_delete (Some (Some t)) s
  = Some (Some NULL, record s (tui_teardown_calls t)).
Proof.
  intros Hwf. unfold tui_well_formed in Hwf.
  apply andb_true_iff in Hwf as [Hmenus Hwindows].
  apply array_ok_spec in Hmenus. unfold tui_delete.
  destruct (free_all_run tui_menu_free menu_teardown_calls
              (λ s, eq_refl) (Tui.menus t) (Tui.menu_count t)) with (s := s)
    as [menus' Hrun].
  { destruct (Tui.menus t) as [slots|]; [|exact Hmenus].
    destruct Hmenus as [Hlen Hok]. split; [exact Hlen|].
    eapply Forall_impl; [exact Hok|]. simpl.
    intros slot Hslot m -> s'. apply tui_menu_free_live, Hslot. reflexivity. }
  rewrite bind_eq, Hrun. run_m.
  rewrite tui_windows_free_run by exact Hwindows. run_m.
  rewrite record_app. reflexivity.
Qed.

Lemma tui_delete_run (tui : ptr (ptr tui_t)) (s : world) :
  Forall (λ t, tui_well_formed t = true) (pointee tui) →
  tui_delete tui s
  = Some (nulled tui, record s (flat_map tui_teardown_calls (pointee tui))).
Proof.
  intros Hwf. destruct tui as [[t|]|]; simpl pointee in *.
  - rewrite tui_delete_live by (inversion Hwf; assumption).
    simpl. rewrite app_nil_r. reflexivity.
  - simpl. rewrite record_nil. reflexivity.
  - simpl. rewrite record_nil. reflexivity.
Qed.

Lemma events_of_app (s : world) (a b : list call) :
  events_of s (a ++ b) = events_of s a ++ events_of s b.
Proof. apply map_app. Qed.

Lemma deleted_app (a b : list event) : deleted (a ++ b) = deleted a ++ deleted b.
Proof. apply omap_app. Qed.

Lemma trace_record (s : world) (calls : list call) :
  drop (length (trace s)) (trace (record s calls)) = events_of s calls.
Proof. unfold record. simpl. apply drop_app_length. Qed.

Lemma deleted_teardown (s : world) (nodes : list tui_window_t) :
  forallb (λ n, bool_decide (is_Some (surface n))) nodes = true →
  Some <$> deleted (events_of s (flat_map (λ n, surface_calls (surface n)) nodes))
  = surface <$> nodes.
Proof.
  induction nodes as [|n nodes IH]; intros Hlive; [reflexivity|].
  simpl in Hlive. apply andb_true_iff in Hlive as [Hn Hnodes].
  apply bool_decide_eq_true in Hn as [win Hwin].
  simpl flat_map. rewrite events_of_app, deleted_app, fmap_app, (IH Hnodes).
  rewrite fmap_cons, Hwin. reflexivity.
Qed.

(** C3: freeing a container of a well-formed tree whose nodes all have their
    surface returns with the pointer nulled, and the surfaces it deleted are
    the surfaces of the nodes of the tree in post-order, one [delwin] for
    each node: the subtrees of the children first, the container last. *)
Theorem tree_teardown_postorder (p : tui_window_parent_t tui_window_t)
    (s : world) :
  well_formed (ParentWindow p) = true →
  has_surfaces (ParentWindow p) = true →
  ∃ s', tui_window_free (Some (Some (ParentWindow p))) s = Some (Some NULL, s')
        ∧ Some <$> deleted (drop (length (trace s)) (trace s'))
          = surface <$> postorder (ParentWindow p)
        ∧ length (deleted (drop (length (trace s)) (trace s')))
          = length (postorder (ParentWindow p))
        ∧ postorder (ParentWindow p)
          = flat_map postorder (slots_of (Parent.children p))
            ++ [ParentWindow p].
Proof.
  intros Hwf Hlive.
  assert (Hdeleted :
            Some <$> deleted (events_of s (teardown_calls (ParentWindow p)))
            = surface <$> postorder (ParentWindow p))
    by apply deleted_teardown, Hlive.
  eexists. split; [apply tui_window_free_live, Hwf|].
  rewrite trace_record. split; [exact Hdeleted|].
  split; [|apply postorder_parent].
  apply (f_equal length) in Hdeleted. rewrite !length_fmap in Hdeleted.
  exact Hdeleted.
Qed.

Lemma tree_teardown_postorder_witness :
  well_formed example_tree = true
  ∧ has_surfaces example_tree = true
  ∧ ∃ s', tui_window_free (Some (Some example_tree)) stubborn_terminal
          = Some (Some NULL, s')
          ∧ Some <$> deleted (drop (length (trace stubborn_terminal)) (trace s'))
            = surface <$> postorder example_tree
          ∧ length (deleted (drop (length (trace stubborn_terminal)) (trace s')))
            = length (postorder example_tree)
          ∧ postorder example_tree
            = flat_map postorder
                [example_text 2;
                 example_parent 3 [Some (example_input 4);
                                   Some (example_text 5)]]
              ++ [example_tree].
Proof.
  split; [reflexivity|]. split; [reflexivity|].
  exact (tree_teardown_postorder example_container stubborn_terminal
           eq_refl eq_refl).
Defined.

(** C7: the destructors of a surface, a window, a menu and a session return
    on every argument, a [NULL] pointer and a pointer to [NULL] included,
    and in every world, that is whatever status curses reports for the calls
    of the teardown; they leave [NULL] behind a pointer that is not [NULL];
    and the calls they issue are the calls of the whole teardown, none is
    skipped after a call that reported an error. *)
Theorem destruction_infallible :
  (∀ (window : ptr (ptr WINDOW)) (s : world),
     tui_ncurses_window_free window s
     = Some (nulled window,
             record s (flat_map (λ win, surface_calls (Some win))
                                (pointee window))))
  ∧ (∀ (window : ptr (ptr tui_window_t)) (s : world),
       Forall (λ w, well_formed w = true) (pointee window) →
       tui_window_free window s
       = Some (nulled window,
               record s (flat_map teardown_calls (pointee window))))
  ∧ (∀ (menu : ptr (ptr tui_menu_t)) (s : world),
       Forall (λ m, menu_well_formed m = true) (pointee menu) →
       tui_menu_free menu s
       = Some (nulled menu,
               record s (flat_map menu_teardown_calls (pointee menu))))
  ∧ (∀ (tui : ptr (ptr tui_t)) (s : world),
       Forall (λ t, tui_well_formed t = true) (pointee tui) →
       tui_delete tui s
       = Some (nulled tui,
               record s (flat_map tui_teardown_calls (pointee tui))))
  ∧ (∀ (s : world) (calls : list call),
       calls_of (drop (length (trace s)) (trace (record s calls))) = calls).
Proof.
  split_and!.
  - exact tui_ncurses_window_free_run.
  - exact tui_window_free_run.
  - exact tui_menu_free_run.
  - exact tui_delete_run.
  - intros s calls. rewrite trace_record. apply calls_of_events_of.
Qed.

Lemma destruction_infallible_witness :
  (Forall (λ w, well_formed w = true) (pointee (Some (Some example_tree)))
   ∧ tui_window_free (Some (Some example_tree)) stubborn_terminal
     = Some (Some NULL,
             record stubborn_terminal (teardown_calls example_tree ++ [])))
  ∧ (Forall (λ m, menu_well_formed m = true) (pointee (Some (Some example_menu)))
     ∧ tui_menu_free (Some (Some example_menu)) stubborn_terminal
       = Some (Some NULL,
               record stubborn_terminal
                      (menu_teardown_calls example_menu ++ [])))
  ∧ (Forall (λ t, tui_well_formed t = true) (pointee (Some (Some example_tui)))
     ∧ tui_delete (Some (Some example_tui)) stubborn_terminal
       = Some (Some NULL,
               record stubborn_terminal
                      (tui_teardown_calls example_tui ++ []))).
Proof.
  destruct destruction_infallible as (_ & Hwindow & Hmenu & Htui & _).
  assert (Hw : Forall (λ w, well_formed w = true)
                      (pointee (Some (Some example_tree))))
    by (constructor; [reflexivity | constructor]).
  assert (Hm : Forall (λ m, menu_well_formed m = true)
                      (pointee (Some (Some example_menu))))
    by (constructor; [reflexivity | constructor]).
  assert (Ht : Forall (λ t, tui_well_formed t = true)
                      (pointee (Some (Some example_tui))))
    by (constructor; [reflexivity | constructor]).
  split; [split; [exact Hw | exact (Hwindow _ stubborn_terminal Hw)]|].
  split; [split; [exact Hm | exact (Hmenu _ stubborn_terminal Hm)]|].
  split; [exact Ht | exact (Htui _ stubborn_terminal Ht)].
Defined.

(** ** Sessions *)

(** C8: when [malloc] grants nothing [tui_create] returns [NULL] and the
    world is as before; when it grants the block, the session holds the size
    of the standard screen at that moment and the handler it was given, its
    three arrays are [NULL] with a count of 0, it has no active menu and no
    active window, it is not running, and the trace and the pairs of the
    world are as before. *)
Theorem tui_create_result (event : ptr address) (s : world) :
  (mem_avail s = 0%nat → tui_create event s = Some (NULL, s))
  ∧ (mem_avail s ≠ 0%nat →
     ∃ tui s',
       tui_create event s = Some (Some tui, s')
       ∧ trace s' = trace s ∧ pairs s' = pairs s ∧ stdscr s' = stdscr s
       ∧ Tui.w tui = match stdscr s with Some _ => COLS s | None => -1 end
       ∧ Tui.h tui = match stdscr s with Some _ => LINES s | None => -1 end
       ∧ Tui.event tui = event
       ∧ Tui.menus tui = NULL ∧ Tui.menu_count tui = 0%nat
       ∧ Tui.windows tui = NULL ∧ Tui.window_count tui = 0%nat
       ∧ Tui.tab_windows tui = NULL ∧ Tui.tab_window_count tui = 0%nat
       ∧ Tui.menu tui = NULL ∧ Tui.window tui = NULL
       ∧ Tui.color tui = 0
       ∧ Tui.is_running tui = false).
Proof.
  unfold tui_create. rewrite bind_eq. unfold malloc.
  destruct (mem_avail s) as [|n]; split; intros Hmem; try congruence.
  - reflexivity.
  - eexists _, _. split; [reflexivity|]. split_and!; reflexivity.
Qed.

Lemma tui_create_result_witness :
  (mem_avail (set_mem_avail started_terminal 0) = 0%nat
   ∧ tui_create (Some 20%positive) (set_mem_avail started_terminal 0)
     = Some (NULL, set_mem_avail started_terminal 0))
  ∧ (mem_avail (set_mem_avail started_terminal 1) ≠ 0%nat
     ∧ ∃ tui s',
         tui_create (Some 20%positive) (set_mem_avail started_terminal 1)
         = Some (Some tui, s')
         ∧ Tui.w tui = 80 ∧ Tui.h tui = 24
         ∧ Tui.event tui = Some 20%positive).
Proof.
  assert (H0 : mem_avail (set_mem_avail started_terminal 0) = 0%nat)
    by reflexivity.
  assert (H1 : mem_avail (set_mem_avail started_terminal 1) ≠ 0%nat)
    by discriminate.
  split; [split; [exact H0|]|split; [exact H1|]].
  - exact (proj1 (tui_create_result (Some 20%positive) _) H0).
  - destruct (proj2 (tui_create_result (Some 20%positive) _) H1)
      as (tui & s' & Hrun & _ & _ & _ & Hw & Hh & Hevent & _).
    exists tui, s'. split; [exact Hrun|].
    split; [exact Hw|]. split; [exact Hh | exact Hevent].
Defined.

(** ** Events *)

(** C4: in [example_tui] the focus view is the windows 11 and 12 and the
    focus is on 11, so the entry the TAB key is to move it to is 12.
    [tui_event], whose comment is "Trigger tui events", has an empty body:
    with the TAB key it returns with the focus on 11, and not on 12. *)
Lemma tui_event_tab_does_not_advance :
  tab_view example_tui = [Some 11%positive; Some 12%positive]
  ∧ Tui.window example_tui = Some 11%positive
  ∧ spec_tab_next example_tui = Some 12%positive
  ∧ ∃ tui' s',
      tui_event example_tui KEY_TAB terminal = Some (tui', s')
      ∧ Tui.window tui' = Some 11%positive
      ∧ Tui.window tui' ≠ spec_tab_next example_tui.
Proof.
  split_and!; try reflexivity.
  exists example_tui, terminal. split_and!; try reflexivity.
  discriminate.
Qed.

(** C5: with the key [a] (97), a session that has a handler, an active menu
    and an active window comes back from [tui_event] as it was and the trace
    has no handler call. *)
Lemma tui_event_key_invokes_no_handler :
  Tui.event example_tui = Some 20%positive
  ∧ Tui.menu example_tui = Some 10%positive
  ∧ Tui.window example_tui = Some 11%positive
  ∧ tui_event example_tui 97 started_terminal
    = Some (example_tui, started_terminal)
  ∧ handlers_of (trace started_terminal) = [].
Proof.
  split_and!; reflexivity.
Qed.

(** * More properties of the code *)

(** ** Deactivation, and terminals that refuse pairs *)

Lemma inherit_idem (c last : tui_color_t) :
  inherit c (inherit c last) = inherit c last.
Proof. unfold inherit. repeat case_decide; congruence. Qed.

(** What [tui_color_off] does once curses knows the pair [tui->color]. *)
Lemma tui_color_off_resolved (tui : tui_t) (fg bg last_fg last_bg : tui_color_t)
    (s : world) :
  pairs s !! Tui.color tui = Some (curses_color last_fg, curses_color last_bg) →
  tui_color_off tui fg bg s
  = Some (tui,
          record s [attroff (COLOR_PAIR (resolve (inherit fg last_fg)
                                                 (inherit bg last_bg)))]).
Proof.
  intros Hlast. unfold tui_color_off.
  rewrite bind_eq. unfold pair_content. rewrite Hlast, last_color_registered.
  fold (resolve (inherit fg last_fg) (inherit bg last_bg)).
  rewrite bind_eq, curses_passive by reflexivity. reflexivity.
Qed.

(** What [tui_color_off] does when curses does not know the pair
    [tui->color]. *)
Lemma tui_color_off_unknown (tui : tui_t) (fg bg : tui_color_t) (s : world) :
  pairs s !! Tui.color tui = None →
  tui_color_off tui fg bg s
  = Some (tui, record s [attroff (COLOR_PAIR (resolve fg bg))]).
Proof.
  intros Hlast. unfold tui_color_off.
  rewrite bind_eq. unfold pair_content. rewrite Hlast.
  change (last_color None (color_ord fg) (color_ord bg))
    with (color_ord fg, color_ord bg).
  cbv iota beta. fold (resolve fg bg).
  rewrite bind_eq, curses_passive by reflexivity. reflexivity.
Qed.

(** X1: with the pairs registered and [(last_fg, last_bg)] the pair made
    active last, [tui_color_off] turns off the pair it gets by the
    substitution of [tui_color_on]: the last foreground for a transparent
    [fg], the last background for a transparent [bg]. *)
Theorem tui_color_off_substitutes
    (tui : tui_t) (s : world) (fg bg last_fg last_bg : tui_color_t) :
  colors_registered s = true →
  Tui.color tui = resolve last_fg last_bg →
  tui_color_off tui fg bg s
  = Some (tui,
          record s [attroff (COLOR_PAIR (resolve (inherit fg last_fg)
                                                 (inherit bg last_bg)))]).
Proof.
  intros Hreg Hlast. apply tui_color_off_resolved. rewrite Hlast.
  apply colors_registered_lookup, Hreg.
Qed.

Lemma tui_color_off_substitutes_witness :
  colors_registered started_terminal = true
  ∧ Tui.color (Tui.set_color example_tui 23)
    = resolve TUI_COLOR_RED TUI_COLOR_BLUE
  ∧ tui_color_off (Tui.set_color example_tui 23) TUI_COLOR_NONE
                  TUI_COLOR_GREEN started_terminal
    = Some (Tui.set_color example_tui 23,
            record started_terminal [attroff (COLOR_PAIR 21)]).
Proof.
  assert (Hreg : colors_registered started_terminal = true)
    by (vm_compute; reflexivity).
  split; [exact Hreg|]. split; [reflexivity|].
  exact (tui_color_off_substitutes (Tui.set_color example_tui 23)
           started_terminal TUI_COLOR_NONE TUI_COLOR_GREEN
           TUI_COLOR_RED TUI_COLOR_BLUE Hreg eq_refl).
Defined.

(** X2: with the pairs registered, [tui_color_off] called after
    [tui_color_on] with the same two colours turns off the very pair that
    was turned on, transparent colours included, and that pair stays the
    colour of the session: the pair that was active before is not put
    back. *)
Theorem color_scope_matched
    (tui : tui_t) (s : world) (fg bg last_fg last_bg : tui_color_t) :
  colors_registered s = true →
  Tui.color tui = resolve last_fg last_bg →
  let color := resolve (inherit fg last_fg) (inherit bg last_bg) in
  ∃ tui' s',
    tui_color_on tui fg bg s = Some (tui', s')
    ∧ Tui.color tui' = color
    ∧ tui_color_off tui' fg bg s'
      = Some (tui', record s [attron (COLOR_PAIR color);
                              attroff (COLOR_PAIR color)]).
Proof.
  intros Hreg Hlast color. eexists _, _. split; [|split].
  - apply (tui_color_on_run tui fg bg last_fg last_bg). rewrite Hlast.
    apply colors_registered_lookup, Hreg.
  - reflexivity.
  - rewrite (tui_color_off_resolved _ fg bg (inherit fg last_fg)
               (inherit bg last_bg)).
    + rewrite !inherit_idem, record_app. reflexivity.
    + apply (colors_registered_lookup s), Hreg.
Qed.

Lemma color_scope_matched_witness :
  colors_registered started_terminal = true
  ∧ Tui.color (Tui.set_color example_tui 23)
    = resolve TUI_COLOR_RED TUI_COLOR_BLUE
  ∧ ∃ tui' s',
      tui_color_on (Tui.set_color example_tui 23) TUI_COLOR_NONE
                   TUI_COLOR_GREEN started_terminal
      = Some (tui', s')
      ∧ Tui.color tui' = 21
      ∧ tui_color_off tui' TUI_COLOR_NONE TUI_COLOR_GREEN s'
        = Some (tui', record started_terminal [attron (COLOR_PAIR 21);
                                               attroff (COLOR_PAIR 21)]).
Proof.
  assert (Hreg : colors_registered started_terminal = true)
    by (vm_compute; reflexivity).
  split; [exact Hreg|]. split; [reflexivity|].
  exact (color_scope_matched (Tui.set_color example_tui 23)
           started_terminal TUI_COLOR_NONE TUI_COLOR_GREEN
           TUI_COLOR_RED TUI_COLOR_BLUE Hreg eq_refl).
Defined.

(** X3: a pair curses does not hold is not inherited.  After two colours
    that are not transparent are activated and curses has no pair at their
    index, activating two transparent colours makes the pair 0 the colour of
    the session. *)
Theorem unregistered_pair_not_inherited
    (tui : tui_t) (s : world) (fg bg : tui_color_t) :
  fg ≠ TUI_COLOR_NONE → bg ≠ TUI_COLOR_NONE →
  pairs s !! resolve fg bg = None →
  ∃ tui1 s1 tui2 s2,
    tui_color_on tui fg bg s = Some (tui1, s1)
    ∧ Tui.color tui1 = resolve fg bg
    ∧ tui_color_on tui1 TUI_COLOR_NONE TUI_COLOR_NONE s1 = Some (tui2, s2)
    ∧ Tui.color tui2 = 0.
Proof.
  intros Hfg Hbg Hnone. eexists _, _, _, _. split_and!.
  - apply tui_color_on_opaque; assumption.
  - reflexivity.
  - apply tui_color_on_unknown. rewrite pairs_record. exact Hnone.
  - reflexivity.
Qed.

Lemma unregistered_pair_not_inherited_witness :
  TUI_COLOR_WHITE ≠ TUI_COLOR_NONE
  ∧ pairs started_small_terminal !! resolve TUI_COLOR_WHITE TUI_COLOR_WHITE
    = None
  ∧ ∃ tui1 s1 tui2 s2,
      tui_color_on example_tui TUI_COLOR_WHITE TUI_COLOR_WHITE
                   started_small_terminal = Some (tui1, s1)
      ∧ Tui.color tui1 = resolve TUI_COLOR_WHITE TUI_COLOR_WHITE
      ∧ tui_color_on tui1 TUI_COLOR_NONE TUI_COLOR_NONE s1 = Some (tui2, s2)
      ∧ Tui.color tui2 = 0.
Proof.
  assert (Hw : TUI_COLOR_WHITE ≠ TUI_COLOR_NONE) by discriminate.
  assert (Hnone : pairs started_small_terminal
                    !! resolve TUI_COLOR_WHITE TUI_COLOR_WHITE = None)
    by (vm_compute; reflexivity).
  split; [exact Hw|]. split; [exact Hnone|].
  exact (unregistered_pair_not_inherited example_tui started_small_terminal
           TUI_COLOR_WHITE TUI_COLOR_WHITE Hw Hw Hnone).
Defined.

Lemma pairs_sound_spec (s : world) :
  pairs_sound s = true
  ↔ ∀ p fb, pairs s !! p = Some fb → In (p, fb) registrations.
Proof.
  unfold pairs_sound. rewrite forallb_forall. split.
  - intros H p fb Hp. apply list_elem_of_In.
    apply (bool_decide_eq_true _), H, list_elem_of_In.
    apply elem_of_map_to_list. exact Hp.
  - intros H [p fb] Hin. apply bool_decide_eq_true, list_elem_of_In, H.
    apply elem_of_map_to_list, list_elem_of_In. exact Hin.
Qed.

Lemma registration_colors (p f b : Z) :
  In (p, (f, b)) registrations →
  ∃ fg bg, p = resolve fg bg ∧ f = curses_color fg ∧ b = curses_color bg.
Proof.
  unfold registrations. intros Hin.
  apply in_flat_map in Hin as (fg & _ & Hin).
  apply in_map_iff in Hin as (bg & [= <- <- <-] & _).
  exists fg, bg. split_and!; reflexivity.
Qed.

(** X5: when the pairs curses holds are pairs of the registrations, on a
    terminal that refused some of them too, both colour functions pass
    curses the index of a pair between 0 and 80, for every session and all
    colours, and [tui_color_on] leaves such an index in [tui->color]. *)
Theorem color_functions_in_range
    (tui : tui_t) (s : world) (fg bg : tui_color_t) :
  pairs_sound s = true →
  (∃ c, 0 ≤ c < 81
        ∧ tui_color_on tui fg bg s
          = Some (Tui.set_color tui c, record s [attron (COLOR_PAIR c)]))
  ∧ (∃ c, 0 ≤ c < 81
          ∧ tui_color_off tui fg bg s
            = Some (tui, record s [attroff (COLOR_PAIR c)])).
Proof.
  intros Hs. destruct (pairs s !! Tui.color tui) as [[f b]|] eqn:Hlast.
  - pose proof (proj1 (pairs_sound_spec s) Hs _ _ Hlast) as Hin.
    apply registration_colors in Hin as (last_fg & last_bg & _ & -> & ->).
    split; eexists; (split; [apply resolve_range|]).
    + apply (tui_color_on_run tui fg bg last_fg last_bg), Hlast.
    + apply (tui_color_off_resolved tui fg bg last_fg last_bg), Hlast.
  - split; eexists; (split; [apply resolve_range|]).
    + apply tui_color_on_unknown, Hlast.
    + apply tui_color_off_unknown, Hlast.
Qed.

Lemma color_functions_in_range_witness :
  pairs_sound started_small_terminal = true
  ∧ (∃ c, 0 ≤ c < 81
          ∧ tui_color_on (Tui.set_color example_tui 80) TUI_COLOR_NONE
                         TUI_COLOR_RED started_small_terminal
            = Some (Tui.set_color (Tui.set_color example_tui 80) c,
                    record started_small_terminal [attron (COLOR_PAIR c)]))
  ∧ (∃ c, 0 ≤ c < 81
          ∧ tui_color_off (Tui.set_color example_tui 80) TUI_COLOR_NONE
                          TUI_COLOR_RED started_small_terminal
            = Some (Tui.set_color example_tui 80,
                    record started_small_terminal [attroff (COLOR_PAIR c)])).
Proof.
  assert (Hs : pairs_sound started_small_terminal = true)
    by (vm_compute; reflexivity).
  split; [exact Hs|].
  exact (color_functions_in_range (Tui.set_color example_tui 80)
           started_small_terminal TUI_COLOR_NONE TUI_COLOR_RED Hs).
Defined.

(** ** Starting and stopping *)

Lemma env_step (c : call) (s : world) :
  COLS (step c s) = COLS s ∧ LINES (step c s) = LINES s
  ∧ mem_avail (step c s) = mem_avail s.
Proof.
  unfold step, curses. destruct c; simpl; destruct (status_of s _);
    split_and!; reflexivity.
Qed.

Lemma env_run_calls (calls : list call) (s : world) :
  COLS (run_calls calls s) = COLS s ∧ LINES (run_calls calls s) = LINES s
  ∧ mem_avail (run_calls calls s) = mem_avail s.
Proof.
  revert s. induction calls as [|c calls IH]; intros s;
    [split_and!; reflexivity|].
  rewrite run_calls_cons. destruct (IH (step c s)) as (-> & -> & ->).
  apply env_step.
Qed.

Lemma stdscr_kept (c : call) (s : world) :
  c ≠ initscr → stdscr (step c s) = stdscr s.
Proof.
  intros Hc. unfold step, curses.
  destruct c; simpl; destruct (status_of s _); try reflexivity.
  contradiction.
Qed.

Lemma visual_kept (c : call) (s : world) :
  c ≠ initscr → c ≠ endwin → visual (step c s) = visual s.
Proof.
  intros Hc Hc'. unfold step, curses.
  destruct c; simpl; destruct (status_of s _); try reflexivity;
    contradiction.
Qed.

Lemma stdscr_run_calls (calls : list call) (s : world) :
  Forall (λ c, c ≠ initscr) calls → stdscr (run_calls calls s) = stdscr s.
Proof.
  intros Hcalls. revert s.
  induction Hcalls as [|c calls Hc _ IH]; intros s; [reflexivity|].
  rewrite run_calls_cons, IH. apply stdscr_kept, Hc.
Qed.

Lemma visual_run_calls (calls : list call) (s : world) :
  Forall (λ c, c ≠ initscr ∧ c ≠ endwin) calls →
  visual (run_calls calls s) = visual s.
Proof.
  intros Hcalls. revert s.
  induction Hcalls as [|c calls [Hc Hc'] _ IH]; intros s; [reflexivity|].
  rewrite run_calls_cons, IH. apply visual_kept; assumption.
Qed.

Lemma pairs_kept (c : call) (s : world) :
  (∀ p f b, c ≠ init_pair p f b) → pairs (step c s) = pairs s.
Proof.
  intros Hc. rewrite pairs_step. destruct c; try reflexivity.
  destruct (Hc p f b eq_refl).
Qed.

Lemma registration_calls_init_pair (P : call → Prop) :
  (∀ p f b, P (init_pair p f b)) → Forall P registration_calls.
Proof.
  intros HP. apply Forall_forall. intros c Hc.
  apply list_elem_of_In in Hc. unfold registration_calls in Hc.
  apply in_map_iff in Hc as (r & <- & _). apply HP.
Qed.

Lemma tui_init_calls_after_initscr (s : world) :
  ∃ rest, tui_init_calls s = initscr :: rest
          ∧ Forall (λ c, c ≠ initscr) rest.
Proof.
  unfold tui_init_calls. eexists. split; [reflexivity|].
  repeat (apply List.Forall_cons; [discriminate|]).
  destruct (no_color s).
  - repeat (apply List.Forall_cons; [discriminate|]). apply List.Forall_nil.
  - apply List.Forall_cons; [discriminate|]. apply Forall_app. split.
    + apply registration_calls_init_pair. discriminate.
    + repeat (apply List.Forall_cons; [discriminate|]). apply List.Forall_nil.
Qed.

Lemma stdscr_initscr (s : world) :
  status_of s initscr = OK → stdscr (step initscr s) = Some 0%N.
Proof. intros H. unfold step, curses. rewrite H. reflexivity. Qed.

(** X6: a [tui_init] that finds colours returns 0 after these calls, in this
    order: the terminal modes, [start_color], [use_default_colors] before
    the first registration, the 81 registrations, [clear] and [refresh];
    [endwin] is not among them, and when [initscr] succeeded the standard
    screen exists and the terminal driver is running. *)
Theorem tui_init_startup (s : world) :
  no_color s = false →
  ∃ s',
    tui_init s = Some (0, s')
    ∧ calls_of (drop (length (trace s)) (trace s'))
      = startup_calls (stdscr (step initscr s))
    ∧ (status_of s initscr = OK →
       stdscr s' = Some 0%N ∧ visual s' = true).
Proof.
  intros Hcolor. eexists. split; [rewrite tui_init_run, Hcolor; reflexivity|].
  split.
  - rewrite trace_run_calls, drop_app_length, calls_of_events_of.
    unfold tui_init_calls. rewrite Hcolor. reflexivity.
  - intros Hinit. unfold tui_init_calls. rewrite Hcolor.
    change ([initscr; noecho; raw; keypad (stdscr (step initscr s)) true;
             start_color] ++ ?l)
      with (initscr :: [noecho; raw; keypad (stdscr (step initscr s)) true;
                        start_color] ++ l).
    rewrite run_calls_cons. split.
    + rewrite stdscr_run_calls; [apply stdscr_initscr, Hinit|].
      apply Forall_app. split.
      * repeat (apply List.Forall_cons; [discriminate|]). apply List.Forall_nil.
      * apply List.Forall_cons; [discriminate|]. apply Forall_app. split.
        -- apply registration_calls_init_pair. discriminate.
        -- repeat (apply List.Forall_cons; [discriminate|]).
           apply List.Forall_nil.
    + rewrite visual_run_calls.
      * unfold step, curses. rewrite Hinit. reflexivity.
      * apply Forall_app. split.
        -- repeat (apply List.Forall_cons; [split; discriminate|]).
           apply List.Forall_nil.
        -- apply List.Forall_cons; [split; discriminate|].
           apply Forall_app. split.
           ++ apply registration_calls_init_pair. split; discriminate.
           ++ repeat (apply List.Forall_cons; [split; discriminate|]).
              apply List.Forall_nil.
Qed.

Lemma tui_init_startup_witness :
  no_color small_terminal = false
  ∧ ∃ s',
      tui_init small_terminal = Some (0, s')
      ∧ calls_of (drop (length (trace small_terminal)) (trace s'))
        = startup_calls (stdscr (step initscr small_terminal))
      ∧ (status_of small_terminal initscr = OK →
         stdscr s' = Some 0%N ∧ visual s' = true).
Proof.
  split; [reflexivity|].
  exact (tui_init_startup small_terminal eq_refl).
Defined.

Lemma tui_quit_run (s : world) :
  tui_quit s = Some ((), run_calls [clear; refresh; endwin] s).
Proof. unfold tui_quit. rewrite !bind_curses. reflexivity. Qed.

(** X7: whatever [tui_init] returned, [tui_quit] after it issues [clear],
    [refresh] and [endwin], keeps the registered pairs, and leaves the
    terminal driver stopped when [endwin] succeeds. *)
Theorem tui_init_then_quit (s : world) :
  status_of s endwin = OK →
  ∃ r s1 s2,
    tui_init s = Some (r, s1)
    ∧ tui_quit s1 = Some ((), s2)
    ∧ calls_of (drop (length (trace s1)) (trace s2)) = [clear; refresh; endwin]
    ∧ pairs s2 = pairs s1
    ∧ visual s2 = false.
Proof.
  intros Hend. eexists _, _, _.
  split; [apply tui_init_run|]. split; [apply tui_quit_run|].
  set (s1 := run_calls (tui_init_calls s) s). split_and!.
  - rewrite trace_run_calls, drop_app_length. apply calls_of_events_of.
  - rewrite !run_calls_cons. change (run_calls [] ?x) with x.
    rewrite !pairs_kept by discriminate. reflexivity.
  - rewrite !run_calls_cons. change (run_calls [] ?x) with x.
    unfold step at 1. unfold curses.
    rewrite !status_of_step. unfold s1. rewrite status_of_run_calls, Hend.
    reflexivity.
Qed.

Lemma tui_init_then_quit_witness :
  status_of mono_terminal endwin = OK
  ∧ ∃ r s1 s2,
      tui_init mono_terminal = Some (r, s1)
      ∧ tui_quit s1 = Some ((), s2)
      ∧ calls_of (drop (length (trace s1)) (trace s2))
        = [clear; refresh; endwin]
      ∧ pairs s2 = pairs s1
      ∧ visual s2 = false.
Proof.
  split; [reflexivity|].
  exact (tui_init_then_quit mono_terminal eq_refl).
Defined.

(** X8: after [tui_init], whatever it returned, on a terminal where
    [initscr] succeeded, a session [tui_create] can allocate has the width
    and the height of the terminal. *)
Theorem tui_create_after_init (event : ptr address) (s : world) :
  status_of s initscr = OK →
  mem_avail s ≠ 0%nat →
  ∃ r s1 tui s2,
    tui_init s = Some (r, s1)
    ∧ tui_create event s1 = Some (Some tui, s2)
    ∧ Tui.w tui = COLS s ∧ Tui.h tui = LINES s.
Proof.
  intros Hinit Hmem.
  set (s1 := run_calls (tui_init_calls s) s).
  assert (Hscr : stdscr s1 = Some 0%N).
  { unfold s1. destruct (tui_init_calls_after_initscr s) as (rest & -> & Hrest).
    rewrite run_calls_cons, stdscr_run_calls by exact Hrest.
    apply stdscr_initscr, Hinit. }
  destruct (env_run_calls (tui_init_calls s) s) as (Hcols & Hlines & Havail).
  fold s1 in Hcols, Hlines, Havail.
  destruct (mem_avail s1) as [|n] eqn:Hs1; [congruence|].
  exists (if no_color s then 1 else 0), s1,
    (Tui.mk (COLS s) (LINES s) NULL 0 NULL 0 NULL 0 NULL NULL 0 event false),
    (set_mem_avail s1 n).
  split; [apply tui_init_run|]. split; [|split; reflexivity].
  unfold tui_create. rewrite bind_eq. unfold malloc. rewrite Hs1.
  cbv iota beta. rewrite bind_eq. unfold getmaxx_stdscr.
  rewrite bind_eq. unfold getmaxy_stdscr. simpl stdscr.
  rewrite Hscr. simpl. rewrite Hcols, Hlines. reflexivity.
Qed.

Lemma tui_create_after_init_witness :
  status_of mono_terminal initscr = OK
  ∧ mem_avail mono_terminal ≠ 0%nat
  ∧ ∃ r s1 tui s2,
      tui_init mono_terminal = Some (r, s1)
      ∧ tui_create (Some 20%positive) s1 = Some (Some tui, s2)
      ∧ Tui.w tui = COLS mono_terminal ∧ Tui.h tui = LINES mono_terminal.
Proof.
  assert (Hmem : mem_avail mono_terminal ≠ 0%nat) by discriminate.
  split; [reflexivity|]. split; [exact Hmem|].
  exact (tui_create_after_init (Some 20%positive) mono_terminal eq_refl Hmem).
Defined.

(** ** More on the teardown *)

(** X9: a destructor called again on what it left does nothing: after a
    surface, a window, a menu or a session is freed through a pointer, a
    second call through the same pointer issues no call and changes
    nothing. *)
Theorem destructors_idempotent :
  (∀ (window : ptr (ptr WINDOW)) (s : world),
     ∃ s', tui_ncurses_window_free window s = Some (nulled window, s')
           ∧ tui_ncurses_window_free (nulled window) s'
             = Some (nulled window, s'))
  ∧ (∀ (window : ptr (ptr tui_window_t)) (s : world),
       Forall (λ w, well_formed w = true) (pointee window) →
       ∃ s', tui_window_free window s = Some (nulled window, s')
             ∧ tui_window_free (nulled window) s' = Some (nulled window, s'))
  ∧ (∀ (menu : ptr (ptr tui_menu_t)) (s : world),
       Forall (λ m, menu_well_formed m = true) (pointee menu) →
       ∃ s', tui_menu_free menu s = Some (nulled menu, s')
             ∧ tui_menu_free (nulled menu) s' = Some (nulled menu, s'))
  ∧ (∀ (tui : ptr (ptr tui_t)) (s : world),
       Forall (λ t, tui_well_formed t = true) (pointee tui) →
       ∃ s', tui_delete tui s = Some (nulled tui, s')
             ∧ tui_delete (nulled tui) s' = Some (nulled tui, s')).
Proof.
  split_and!.
  - intros window s. eexists. split; [apply tui_ncurses_window_free_run|].
    destruct window; reflexivity.
  - intros window s Hwf. eexists. split; [apply tui_window_free_run, Hwf|].
    destruct window; reflexivity.
  - intros menu s Hwf. eexists. split; [apply tui_menu_free_run, Hwf|].
    destruct menu; reflexivity.
  - intros tui s Hwf. eexists. split; [apply tui_delete_run, Hwf|].
    destruct tui; reflexivity.
Qed.

Lemma destructors_idempotent_witness :
  (Forall (λ w, well_formed w = true) (pointee (Some (Some example_tree)))
   ∧ ∃ s', tui_window_free (Some (Some example_tree)) stubborn_terminal
           = Some (Some NULL, s')
           ∧ tui_window_free (Some NULL) s' = Some (Some NULL, s'))
  ∧ (Forall (λ m, menu_well_formed m = true) (pointee (Some (Some example_menu)))
     ∧ ∃ s', tui_menu_free (Some (Some example_menu)) stubborn_terminal
             = Some (Some NULL, s')
             ∧ tui_menu_free (Some NULL) s' = Some (Some NULL, s'))
  ∧ (Forall (λ t, tui_well_formed t = true) (pointee (Some (Some example_tui)))
     ∧ ∃ s', tui_delete (Some (Some example_tui)) stubborn_terminal
             = Some (Some NULL, s')
             ∧ tui_delete (Some NULL) s' = Some (Some NULL, s')).
Proof.
  destruct destructors_idempotent as (_ & Hwindow & Hmenu & Htui).
  assert (Hw : Forall (λ w, well_formed w = true)
                      (pointee (Some (Some example_tree))))
    by (constructor; [reflexivity | constructor]).
  assert (Hm : Forall (λ m, menu_well_formed m = true)
                      (pointee (Some (Some example_menu))))
    by (constructor; [reflexivity | constructor]).
  assert (Ht : Forall (λ t, tui_well_formed t = true)
                      (pointee (Some (Some example_tui))))
    by (constructor; [reflexivity | constructor]).
  split; [split; [exact Hw | exact (Hwindow _ stubborn_terminal Hw)]|].
  split; [split; [exact Hm | exact (Hmenu _ stubborn_terminal Hm)]|].
  split; [exact Ht | exact (Htui _ stubborn_terminal Ht)].
Defined.

Section slots_bounds.
Context {T : Type}.
Variable slot_free : ptr (ptr T) → M (ptr (ptr T)).
Variable calls : T → list call.

Hypothesis slot_free_null :
  ∀ s, slot_free (Some NULL) s = Some (Some NULL, s).

Local Abbreviation frees x :=
  (∀ s, slot_free (Some (Some x)) s = Some (Some NULL, record s (calls x))).

Lemma slot_free_run (slot : ptr T) (s : world) :
  (∀ x, slot = Some x → frees x) →
  slot_free (Some slot) s
  = Some (Some NULL, record s (flat_map calls (slots_of (Some [slot])))).
Proof using slot_free_null.
  intros Hslot. destruct slot as [x|].
  - rewrite (Hslot x eq_refl). unfold slots_of. simpl.
    rewrite app_nil_r. reflexivity.
  - rewrite slot_free_null. unfold slots_of. simpl.
    rewrite record_nil. reflexivity.
Qed.

(** The loop with fewer passes than slots frees the first slots and leaves
    the others. *)
Lemma free_loop_take (slots : list (ptr T)) :
  ∀ (passes : nat) (s : world),
    (passes ≤ length slots)%nat →
    Forall (λ slot, ∀ x, slot = Some x → frees x) (take passes slots) →
    free_loop slot_free slots passes s
    = Some (map (λ _, NULL) (take passes slots) ++ drop passes slots,
            record s (flat_map calls (slots_of (Some (take passes slots))))).
Proof using slot_free_null.
  induction slots as [|slot rest IH]; intros passes s Hlen Hok.
  - destruct passes; [|simpl in Hlen; lia].
    simpl. rewrite record_nil. reflexivity.
  - destruct passes as [|passes].
    + simpl. rewrite record_nil. reflexivity.
    + simpl in Hlen. rewrite firstn_cons in Hok.
      apply List.Forall_cons_iff in Hok as [Hslot Hrest].
      simpl free_loop. rewrite !bind_eq, (slot_free_run slot s Hslot).
      simpl deref. rewrite ret_eq. cbv iota beta.
      rewrite bind_eq, (IH passes _ ltac:(lia) Hrest), ret_eq.
      rewrite record_app, firstn_cons.
      rewrite (slots_of_cons slot (take passes rest)), flat_map_app.
      reflexivity.
Qed.

(** The loop with more passes than slots reads past the end of the array. *)
Lemma free_loop_overrun (slots : list (ptr T)) :
  ∀ (passes : nat) (s : world),
    (length slots < passes)%nat →
    Forall (λ slot, ∀ x, slot = Some x → frees x) slots →
    free_loop slot_free slots passes s = None.
Proof using slot_free_null.
  induction slots as [|slot rest IH]; intros passes s Hlen Hok.
  - destruct passes; [simpl in Hlen; lia|]. reflexivity.
  - destruct passes as [|passes]; [simpl in Hlen; lia|].
    simpl in Hlen. apply List.Forall_cons_iff in Hok as [Hslot Hrest].
    simpl free_loop. rewrite !bind_eq, (slot_free_run slot s Hslot).
    simpl deref. rewrite ret_eq. cbv iota beta.
    rewrite bind_eq, (IH passes _ ltac:(lia) Hrest). reflexivity.
Qed.
End slots_bounds.

Lemma Forall_slots_of {T : Type} (P : T → Prop) (slots : list (ptr T)) :
  Forall P (slots_of (Some slots)) →
  Forall (λ slot, ∀ x, slot = Some x → P x) slots.
Proof.
  unfold slots_of. simpl. induction slots as [|[x|] rest IH]; simpl; intros H.
  - constructor.
  - apply List.Forall_cons_iff in H as [Hx Hrest].
    constructor; [intros y [= <-]; exact Hx | apply IH, Hrest].
  - constructor; [intros y Hy; discriminate Hy | apply IH, H].
Qed.

(** X10: [tui_windows_free] frees as many windows as the count says, from
    the first slot on.  With a count within the array it tears down the
    windows of the first [count] slots and no other, and leaves [NULL] and
    0; with a count beyond the array it reads outside the array.  For a
    [NULL] array the first pass is given the [NULL] pointer [&NULL[0]] and
    returns at once, so with the count 1 the function returns with nothing
    done; the second pass reads through [&NULL[1]]. *)
Theorem tui_windows_free_bounds :
  (∀ (slots : list (ptr tui_window_t)) (count : nat) (s : world),
     (count ≤ length slots)%nat →
     Forall (λ w, well_formed w = true) (slots_of (Some (take count slots))) →
     tui_windows_free (Some slots) count s
     = Some ((NULL, 0%nat),
             record s (windows_teardown_calls
                         (slots_of (Some (take count slots))))))
  ∧ (∀ (slots : list (ptr tui_window_t)) (count : nat) (s : world),
       (length slots < count)%nat →
       Forall (λ w, well_formed w = true) (slots_of (Some slots)) →
       tui_windows_free (Some slots) count s = None)
  ∧ (∀ s : world, tui_windows_free NULL 1 s = Some ((NULL, 0%nat), s))
  ∧ (∀ (count : nat) (s : world),
       (1 < count)%nat → tui_windows_free NULL count s = None).
Proof.
  split_and!.
  - intros slots count s Hlen Hwf.
    unfold tui_windows_free, tui_windows_free_with, free_all.
    destruct count as [|count].
    + rewrite bind_eq, ret_eq. cbv iota beta. unfold free.
      rewrite bind_eq, ret_eq. cbv iota beta. rewrite ret_eq.
      rewrite take_0. unfold slots_of. simpl. rewrite record_nil.
      reflexivity.
    + rewrite bind_eq, fmap_eq.
      rewrite (free_loop_take tui_window_free teardown_calls
                 tui_window_free_null slots (S count) s Hlen).
      * reflexivity.
      * apply Forall_slots_of in Hwf. eapply Forall_impl; [exact Hwf|].
        simpl. intros slot Hslot w -> s'.
        apply tui_window_free_live, Hslot. reflexivity.
  - intros slots count s Hlen Hwf.
    unfold tui_windows_free, tui_windows_free_with, free_all.
    destruct count as [|count]; [lia|].
    rewrite bind_eq, fmap_eq.
    rewrite (free_loop_overrun tui_window_free teardown_calls
               tui_window_free_null slots (S count) s Hlen).
    + reflexivity.
    + apply Forall_slots_of in Hwf. eapply Forall_impl; [exact Hwf|].
      simpl. intros slot Hslot w -> s'.
      apply tui_window_free_live, Hslot. reflexivity.
  - intros s. reflexivity.
  - intros count s Hcount. destruct count as [|[|count]]; [lia|lia|].
    reflexivity.
Qed.

Lemma tui_windows_free_bounds_witness :
  ((1 ≤ length [Some (example_text 2); Some example_tree])%nat
   ∧ Forall (λ w, well_formed w = true)
            (slots_of (Some (take 1 [Some (example_text 2);
                                     Some example_tree])))
   ∧ tui_windows_free (Some [Some (example_text 2); Some example_tree]) 1
                      stubborn_terminal
     = Some ((NULL, 0%nat),
             record stubborn_terminal [wclear 2%N; wrefresh 2%N; delwin 2%N]))
  ∧ ((length [Some (example_text 2); Some example_tree] < 3)%nat
     ∧ Forall (λ w, well_formed w = true)
              (slots_of (Some [Some (example_text 2); Some example_tree]))
     ∧ tui_windows_free (Some [Some (example_text 2); Some example_tree]) 3
                        stubborn_terminal
       = None)
  ∧ tui_windows_free NULL 1 stubborn_terminal
    = Some ((NULL, 0%nat), stubborn_terminal)
  ∧ ((1 < 2)%nat ∧ tui_windows_free NULL 2 stubborn_terminal = None).
Proof.
  destruct tui_windows_free_bounds as (Hin & Hout & Hfirst & Hnull).
  assert (H1 : (1 ≤ length [Some (example_text 2); Some example_tree])%nat)
    by (simpl; lia).
  assert (Hwf1 : Forall (λ w, well_formed w = true)
                   (slots_of (Some (take 1 [Some (example_text 2);
                                            Some example_tree]))))
    by (constructor; [reflexivity | constructor]).
  assert (H3 : (length [Some (example_text 2); Some example_tree] < 3)%nat)
    by (simpl; lia).
  assert (Hwf : Forall (λ w, well_formed w = true)
                  (slots_of (Some [Some (example_text 2); Some example_tree])))
    by (constructor; [reflexivity | constructor; [reflexivity | constructor]]).
  assert (H2 : (1 < 2)%nat) by lia.
  split; [split; [exact H1 | split; [exact Hwf1|]]|].
  { exact (Hin _ 1%nat stubborn_terminal H1 Hwf1). }
  split; [split; [exact H3 | split; [exact Hwf|]]|].
  { exact (Hout _ 3%nat stubborn_terminal H3 Hwf). }
  split; [exact (Hfirst stubborn_terminal)|].
  split; [exact H2 | exact (Hnull 2%nat stubborn_terminal H2)].
Defined.

Lemma tui_teardown_calls_nodes (t : tui_t) :
  tui_teardown_calls t = flat_map (λ n, surface_calls (surface n)) (tui_nodes t).
Proof.
  unfold tui_teardown_calls, tui_nodes, tui_trees, menu_teardown_calls,
    windows_teardown_calls, teardown_calls, menu_windows.
  rewrite !flat_map_app, !flat_map_flat_map. reflexivity.
Qed.

(** X11: [tui_delete] on a well-formed session whose windows all have their
    surface deletes the surface of every node the session owns once: the
    trees of the first menu, window after window and each in post-order,
    then those of the next menus, then the top-level windows.  It does not
    stop the terminal driver and leaves the registered pairs. *)
Theorem tui_delete_order (t : tui_t) (s : world) :
  tui_well_formed t = true →
  forallb (λ n, bool_decide (is_Some (surface n))) (tui_nodes t) = true →
  ∃ s',
    tui_delete (Some (Some t)) s = Some (Some NULL, s')
    ∧ Some <$> deleted (drop (length (trace s)) (trace s'))
      = surface <$> tui_nodes t
    ∧ visual s' = visual s ∧ stdscr s' = stdscr s ∧ pairs s' = pairs s.
Proof.
  intros Hwf Hlive. eexists. split; [apply tui_delete_live, Hwf|].
  split; [|split_and!; reflexivity].
  rewrite trace_record, tui_teardown_calls_nodes.
  apply deleted_teardown, Hlive.
Qed.

Lemma tui_delete_order_witness :
  tui_well_formed example_tui = true
  ∧ forallb (λ n, bool_decide (is_Some (surface n))) (tui_nodes example_tui)
    = true
  ∧ ∃ s',
      tui_delete (Some (Some example_tui)) stubborn_terminal
      = Some (Some NULL, s')
      ∧ Some <$> deleted (drop (length (trace stubborn_terminal)) (trace s'))
        = surface <$> tui_nodes example_tui
      ∧ visual s' = visual stubborn_terminal
      ∧ stdscr s' = stdscr stubborn_terminal
      ∧ pairs s' = pairs stubborn_terminal.
Proof.
  split; [reflexivity|]. split; [reflexivity|].
  exact (tui_delete_order example_tui stubborn_terminal eq_refl eq_refl).
Defined.

(** X12: a session [tui_create] has just made can be deleted at once:
    [tui_delete] issues no call, changes nothing in the world and leaves the
    pointer [NULL]. *)
Theorem tui_create_then_delete (event : ptr address) (s : world) :
  mem_avail s ≠ 0%nat →
  ∃ tui s1,
    tui_create event s = Some (Some tui, s1)
    ∧ tui_delete (Some (Some tui)) s1 = Some (Some NULL, s1).
Proof.
  intros Hmem. unfold tui_create. rewrite bind_eq. unfold malloc.
  destruct (mem_avail s) as [|n]; [congruence|].
  eexists _, _. split; [reflexivity|].
  rewrite tui_delete_live by reflexivity.
  rewrite record_nil. reflexivity.
Qed.

Lemma tui_create_then_delete_witness :
  mem_avail terminal ≠ 0%nat
  ∧ ∃ tui s1,
      tui_create (Some 20%positive) terminal = Some (Some tui, s1)
      ∧ tui_delete (Some (Some tui)) s1 = Some (Some NULL, s1).
Proof.
  assert (Hmem : mem_avail terminal ≠ 0%nat) by discriminate.
  split; [exact Hmem|].
  exact (tui_create_then_delete (Some 20%positive) terminal Hmem).
Defined.

(** ** Surfaces *)

Lemma Scr_bind_eq {A B : Type} (m : Scr A) (k : A → Scr B) (sc : screen) :
  (m ≫= k) sc = match m sc with Some (a, sc') => k a sc' | None => None end.
Proof. reflexivity. Qed.

(** X13: [tui_ncurses_window_create(w, h, x, y)] returns the window
    [newwin] gives it, after enabling its keypad: a window with its corner
    in the column [x] of the line [y], [w] columns wide and [h] lines high
    when [w] and [h] are not 0, and reaching the right edge of the screen
    for [w] 0 and its last line for [h] 0; the other windows are as before.
    When [newwin] returns [NULL] it returns [NULL], and nothing was done: no
    keypad call, no window. *)
Theorem surface_create (w h x y : Z) (sc : screen) :
  (∀ win, newwin_result sc h w y x = Some win →
     ∃ sc',
       tui_ncurses_window_create w h x y sc = Some (Some win, sc')
       ∧ geometry sc' !! win
         = Some (mkRect (if decide (w = 0) then COLS (under sc) - x else w)
                        (if decide (h = 0) then LINES (under sc) - y else h)
                        x y)
       ∧ (w ≠ 0 → h ≠ 0 → geometry sc' !! win = Some (mkRect w h x y))
       ∧ (∀ other, other ≠ win → geometry sc' !! other = geometry sc !! other)
       ∧ under sc' = record (under sc) [keypad (Some win) true])
  ∧ (newwin_result sc h w y x = None →
     tui_ncurses_window_create w h x y sc = Some (NULL, sc)).
Proof.
  unfold tui_ncurses_window_create. rewrite Scr_bind_eq. unfold newwin.
  split.
  - intros win Hwin. rewrite Hwin. cbv iota beta.
    rewrite Scr_bind_eq. unfold in_world. simpl under.
    rewrite curses_passive by reflexivity.
    eexists. split; [reflexivity|]. split_and!.
    + simpl. apply lookup_insert_eq.
    + intros Hw Hh. simpl. unfold to_edge.
      rewrite !decide_False by assumption. apply lookup_insert_eq.
    + intros other Hother. simpl. apply lookup_insert_ne. congruence.
    + reflexivity.
  - intros Hnull. rewrite Hnull. reflexivity.
Qed.

Lemma surface_create_witness :
  (newwin_result example_screen 3 20 2 5 = Some 9%N
   ∧ ∃ sc',
       tui_ncurses_window_create 20 3 5 2 example_screen = Some (Some 9%N, sc')
       ∧ geometry sc' !! 9%N
         = Some (mkRect (if decide (20 = 0)
                         then COLS (under example_screen) - 5 else 20)
                        (if decide (3 = 0)
                         then LINES (under example_screen) - 2 else 3)
                        5 2)
       ∧ (20 ≠ 0 → 3 ≠ 0 → geometry sc' !! 9%N = Some (mkRect 20 3 5 2))
       ∧ (∀ other, other ≠ 9%N →
                   geometry sc' !! other = geometry example_screen !! other)
       ∧ under sc'
         = record (under example_screen) [keypad (Some 9%N) true])
  ∧ (newwin_result example_screen 0 20 2 5 = Some 9%N
     ∧ LINES (under example_screen) = 24
     ∧ ∃ sc',
         tui_ncurses_window_create 20 0 5 2 example_screen
         = Some (Some 9%N, sc')
         ∧ geometry sc' !! 9%N
           = Some (mkRect (if decide (20 = 0)
                           then COLS (under example_screen) - 5 else 20)
                          (if decide (0 = 0)
                           then LINES (under example_screen) - 2 else 0)
                          5 2)
         ∧ (20 ≠ 0 → 0 ≠ 0 → geometry sc' !! 9%N = Some (mkRect 20 0 5 2))
         ∧ (∀ other, other ≠ 9%N →
                     geometry sc' !! other = geometry example_screen !! other)
         ∧ under sc'
           = record (under example_screen) [keypad (Some 9%N) true])
  ∧ (newwin_result example_screen (-1) 20 2 5 = None
     ∧ tui_ncurses_window_create 20 (-1) 5 2 example_screen
       = Some (NULL, example_screen)).
Proof.
  split; [|split].
  - split; [reflexivity|].
    exact (proj1 (surface_create 20 3 5 2 example_screen) 9%N eq_refl).
  - split; [reflexivity|]. split; [vm_compute; reflexivity|].
    exact (proj1 (surface_create 20 0 5 2 example_screen) 9%N eq_refl).
  - split; [reflexivity|].
    exact (proj2 (surface_create 20 (-1) 5 2 example_screen) eq_refl).
Defined.

(** X14: [tui_ncurses_window_resize(window, w, h, x, y)] always returns and
    reports nothing.  A window curses holds gets the width [w] and the
    height [h] when [wresize] succeeds, and the place [(x, y)] when [mvwin]
    succeeds, each whether or not the other call failed; the other windows
    and the world are as before.  For a [NULL] window nothing changes. *)
Theorem surface_resize (w h x y : Z) (sc : screen) :
  (∀ (win : WINDOW) (r : tui_rect_t),
     geometry sc !! win = Some r →
     let resized := window_status sc (wresize (Some win) h w) in
     let moved := window_status sc (mvwin (Some win) y x) in
     ∃ sc',
       tui_ncurses_window_resize (Some win) w h x y sc = Some ((), sc')
       ∧ geometry sc' !! win
         = Some (mkRect (if decide (resized = OK) then w else rect_w r)
                        (if decide (resized = OK) then h else rect_h r)
                        (if decide (moved = OK) then x else rect_x r)
                        (if decide (moved = OK) then y else rect_y r))
       ∧ (∀ other, other ≠ win → geometry sc' !! other = geometry sc !! other)
       ∧ under sc' = under sc)
  ∧ tui_ncurses_window_resize NULL w h x y sc = Some ((), sc).
Proof.
  split; [|reflexivity].
  intros win r Hr resized moved.
  unfold tui_ncurses_window_resize.
  rewrite Scr_bind_eq. unfold window_curses at 1. fold resized.
  destruct resized eqn:Hresized; cbv iota beta;
    rewrite Scr_bind_eq; unfold window_curses; simpl window_status;
    fold moved; destruct moved eqn:Hmoved; cbv iota beta;
    (eexists; split; [reflexivity|]); simpl; split_and!;
    try reflexivity;
    try (intros other Hother;
         rewrite ?lookup_alter_ne by congruence; reflexivity);
    rewrite ?lookup_alter_eq, ?Hr; destruct r; reflexivity.
Qed.

Lemma surface_resize_witness :
  geometry rigid_screen !! 8%N = Some (mkRect 10 1 0 0)
  ∧ ∃ sc',
      tui_ncurses_window_resize (Some 8%N) 30 4 7 2 rigid_screen
      = Some ((), sc')
      ∧ geometry sc' !! 8%N = Some (mkRect 10 1 7 2)
      ∧ (∀ other, other ≠ 8%N →
                  geometry sc' !! other = geometry rigid_screen !! other)
      ∧ under sc' = under rigid_screen.
Proof.
  split; [reflexivity|].
  exact (proj1 (surface_resize 30 4 7 2 rigid_screen) 8%N (mkRect 10 1 0 0)
               eq_refl).
Defined.

(** ** Sessions over time *)

(** X15: in every state of a session made after the colours were registered
    and used through [tui_color_on], [tui_color_off] and [tui_event], in any
    order and with any colours and keys, the pairs are still registered and
    [tui->color] is the index of a pair of colours, between 0 and 80. *)
Theorem session_color_invariant (tui : tui_t) (s : world) :
  session_state tui s →
  colors_registered s = true
  ∧ 0 ≤ Tui.color tui < 81
  ∧ ∃ fg bg, Tui.color tui = resolve fg bg
             ∧ pairs s !! Tui.color tui
               = Some (curses_color fg, curses_color bg).
Proof.
  intros Hstate.
  destruct (session_state_color tui s Hstate) as (Hreg & fg & bg & Hcolor).
  split; [exact Hreg|]. split.
  - rewrite Hcolor. apply resolve_range.
  - exists fg, bg. split; [exact Hcolor|]. rewrite Hcolor.
    apply colors_registered_lookup, Hreg.
Qed.

Lemma session_color_invariant_witness :
  session_state (Tui.set_color example_session 21)
                (record (record (set_mem_avail started_terminal 0)
                                [attron (COLOR_PAIR 21)])
                        [attroff (COLOR_PAIR 23)])
  ∧ colors_registered
      (record (record (set_mem_avail started_terminal 0)
                      [attron (COLOR_PAIR 21)])
              [attroff (COLOR_PAIR 23)]) = true
  ∧ 0 ≤ Tui.color (Tui.set_color example_session 21) < 81
  ∧ ∃ fg bg,
      Tui.color (Tui.set_color example_session 21) = resolve fg bg
      ∧ pairs (record (record (set_mem_avail started_terminal 0)
                              [attron (COLOR_PAIR 21)])
                      [attroff (COLOR_PAIR 23)])
          !! Tui.color (Tui.set_color example_session 21)
        = Some (curses_color fg, curses_color bg).
Proof.
  assert (Hreg : colors_registered started_terminal = true)
    by (vm_compute; reflexivity).
  assert (Hrun : tui_create (Some 20%positive) started_terminal
                 = Some (Some example_session,
                         set_mem_avail started_terminal 0))
    by (vm_compute; reflexivity).
  assert (Hon : tui_color_on example_session TUI_COLOR_RED TUI_COLOR_GREEN
                             (set_mem_avail started_terminal 0)
                = Some (Tui.set_color example_session 21,
                        record (set_mem_avail started_terminal 0)
                               [attron (COLOR_PAIR 21)]))
    by (vm_compute; reflexivity).
  assert (Hoff : tui_color_off (Tui.set_color example_session 21)
                               TUI_COLOR_NONE TUI_COLOR_BLUE
                               (record (set_mem_avail started_terminal 0)
                                       [attron (COLOR_PAIR 21)])
                 = Some (Tui.set_color example_session 21,
                         record (record (set_mem_avail started_terminal 0)
                                        [attron (COLOR_PAIR 21)])
                                [attroff (COLOR_PAIR 23)]))
    by (vm_compute; reflexivity).
  assert (Hkey : tui_event (Tui.set_color example_session 21) KEY_TAB
                           (record (record (set_mem_avail started_terminal 0)
                                           [attron (COLOR_PAIR 21)])
                                   [attroff (COLOR_PAIR 23)])
                 = Some (Tui.set_color example_session 21,
                         record (record (set_mem_avail started_terminal 0)
                                        [attron (COLOR_PAIR 21)])
                                [attroff (COLOR_PAIR 23)]))
    by reflexivity.
  assert (Hstate : session_state
                     (Tui.set_color example_session 21)
                     (record (record (set_mem_avail started_terminal 0)
                                     [attron (COLOR_PAIR 21)])
                             [attroff (COLOR_PAIR 23)])).
  { eapply session_event; [|exact Hkey].
    eapply session_color_off; [|exact Hoff].
    eapply session_color_on; [|exact Hon].
    exact (session_created _ _ _ _ Hreg Hrun). }
  split; [exact Hstate|].
  exact (session_color_invariant _ _ Hstate).
Defined.

Lemma pairs_run_registered (regs : list (Z * (Z * Z))) (s : world) :
  (∀ r, In r regs → pairs s !! r.1 = Some r.2) →
  pairs (run_calls (map (λ r, init_pair r.1 r.2.1 r.2.2) regs) s) = pairs s.
Proof.
  revert s. induction regs as [|[p [f b]] regs IH]; intros s H; [reflexivity|].
  simpl map. rewrite run_calls_cons.
  assert (Hstep : pairs (step (init_pair p f b) s) = pairs s).
  { rewrite pairs_step. destruct (status_of s _); [|reflexivity].
    apply insert_id. apply (H (p, (f, b))). left. reflexivity. }
  rewrite IH; [exact Hstep|].
  intros r Hr. rewrite Hstep. apply H. right. exact Hr.
Qed.

(** X16: registering the colours again changes no pair.  When curses holds
    the 81 pairs, [tui_colors_init] leaves every pair as it is, whatever
    curses reports for the registrations this time. *)
Theorem tui_colors_init_again (s : world) :
  colors_registered s = true →
  ∃ s', tui_colors_init s = Some ((), s')
        ∧ pairs s' = pairs s
        ∧ colors_registered s' = true.
Proof.
  intros Hreg.
  assert (Hpairs : pairs (run_calls registration_calls s) = pairs s).
  { unfold registration_calls. apply pairs_run_registered.
    unfold colors_registered in Hreg. rewrite forallb_forall in Hreg.
    intros r Hr. apply (bool_decide_eq_true _), Hreg, Hr. }
  eexists. split; [apply tui_colors_init_run|]. split; [exact Hpairs|].
  unfold colors_registered. rewrite Hpairs. exact Hreg.
Qed.

Lemma tui_colors_init_again_witness :
  colors_registered started_small_terminal = false
  ∧ colors_registered started_terminal = true
  ∧ ∃ s', tui_colors_init started_terminal = Some ((), s')
          ∧ pairs s' = pairs started_terminal
          ∧ colors_registered s' = true.
Proof.
  assert (Hreg : colors_registered started_terminal = true)
    by (vm_compute; reflexivity).
  split; [vm_compute; reflexivity|]. split; [exact Hreg|].
  exact (tui_colors_init_again started_terminal Hreg).
Defined.
